(** * Username-availability proxy: cache, rate limiter, session, orchestrator

    A shallow embedding of the service's main program: the availability
    cache ([getCachedAvailability], [setCachedAvailability]), the session
    functions ([isSessionValid], [getSessionExpiry], [login],
    [ensureLoggedIn]), the orchestrator [checkUsername] and the two HTTP
    handlers.  The program talks to three things it does not own: a Redis
    server, the sliding-window limiter of the rate-limit package, and a
    cookie jar wrapped around [fetch].  Each is modelled by its documented
    contract, as a component of one explicit [World]; everything the
    program itself does is translated function by function.  The first
    version of the program ([V1]), the adapter between the limiter and the
    Redis client ([Adapter]) and the list of permitted origins of the
    environment schema ([Env]) are embedded beside it. *)

From stdpp Require Import gmap strings list fin_maps.
From Stdlib Require Import ZArith Ascii String Lia.

Local Open Scope string_scope.
Local Open Scope Z_scope.

(** ** Strings *)

Module Str.

(** [String.prototype.toLowerCase] on the ASCII letters; other code units
    are left as they are. *)
Definition lower_ascii (c : ascii) : ascii :=
  let n := nat_of_ascii c in
  if ((65 <=? n)%nat && (n <=? 90)%nat)%bool then ascii_of_nat (n + 32) else c.

Fixpoint toLowerCase (s : string) : string :=
  match s with
  | EmptyString => EmptyString
  | String c r => String (lower_ascii c) (toLowerCase r)
  end.

(** [s.startsWith(p)] *)
Definition startsWith (p s : string) : bool := String.prefix p s.

(** [s.includes(p)] *)
Fixpoint includes (p s : string) : bool :=
  if String.prefix p s then true
  else match s with
       | EmptyString => false
       | String _ r => includes p r
       end.

(** The character class [[a-f0-9-]] of the flow pattern. *)
Definition isFlowChar (c : ascii) : bool :=
  let n := nat_of_ascii c in
  (((97 <=? n)%nat && (n <=? 102)%nat) || ((48 <=? n)%nat && (n <=? 57)%nat)
   || (n =? 45)%nat)%bool.

Fixpoint takeWhile (f : ascii -> bool) (s : string) : string :=
  match s with
  | EmptyString => EmptyString
  | String c r => if f c then String c (takeWhile f r) else EmptyString
  end.

Fixpoint dropN (n : nat) (s : string) : string :=
  match n, s with
  | O, _ => s
  | S _, EmptyString => EmptyString
  | S k, String _ r => dropN k r
  end.

(** [s.match(/flow=([a-f0-9-]+)/)]: the leftmost occurrence of [flow=]
    that is followed by at least one character of the class; the capture
    group is the longest run of such characters. *)
Fixpoint flowMatch (s : string) : option string :=
  match s with
  | EmptyString => None
  | String _ r =>
      if String.prefix "flow=" s then
        match takeWhile isFlowChar (dropN 5 s) with
        | EmptyString => flowMatch r
        | run => Some run
        end
      else flowMatch r
  end.

End Str.

(** ** Redis: string keys with an optional expiry

    [SET key v EX s] stores [v] and makes the key expire [s] seconds after
    the server's current time; plain [SET key v] stores [v] and discards
    any expiry the key had.  [GET] answers nil for a key that is absent or
    whose expiry time has been passed.  Times are epoch milliseconds, and
    the server's clock is taken to agree with the process's. *)

Module Redis.

Record Entry := { val : string; expireAt : option Z }.

Definition alive (now : Z) (e : Entry) : bool :=
  match expireAt e with
  | None => true
  | Some t => now <=? t
  end.

Definition get (now : Z) (key : string) (db : gmap string Entry) : option string :=
  match db !! key with
  | Some e => if alive now e then Some (val e) else None
  | None => None
  end.

Definition set (now : Z) (key v : string) (ex : option Z)
    (db : gmap string Entry) : gmap string Entry :=
  <[key := {| val := v; expireAt := (fun s => now + s * 1000) <$> ex |}]> db.

End Redis.

(** ** The cookie jar

    Cookies as the jar keeps them.  [expires] is the cookie's [expires]
    property: a date, the string ["Infinity"] of a cookie that came without
    an Expires attribute, or null.  The jar hands out a cookie for a host
    when the cookie's domain matches and its expiry time (Max-Age counted
    from creation when present, the Expires date otherwise) is still ahead
    of the current time; an expired cookie is dropped from the answer.
    All URLs of the program are https and paths are not modelled.  The list
    is kept in the order in which the jar reports cookies (by creation). *)

Module Jar.

Inductive Expires :=
  | ExpInfinity
  | ExpNull
  | ExpDate (t : Z).

Record Cookie := {
  key : string;
  value : string;
  domain : string;
  hostOnly : bool;
  expires : Expires;
  maxAge : option Z;
  creation : Z
}.

Definition expired (now : Z) (c : Cookie) : bool :=
  match maxAge c with
  | Some m => if m <=? 0 then true else creation c + m * 1000 <=? now
  | None =>
      match expires c with
      | ExpDate t => t <=? now
      | ExpInfinity | ExpNull => false
      end
  end.

Fixpoint endsWith (p s : string) : bool :=
  if String.eqb p s then true
  else match s with
       | EmptyString => false
       | String _ r => endsWith p r
       end.

Definition domainMatch (host : string) (c : Cookie) : bool :=
  String.eqb host (domain c)
  || (negb (hostOnly c) && endsWith ("." ++ domain c) host).

(** [cookieJar.getCookiesSync(url)] and [cookieJar.getCookies(url)] *)
Definition getCookies (host : string) (now : Z) (jar : list Cookie) : list Cookie :=
  filter (fun c => Is_true (domainMatch host c && negb (expired now c))) jar.

Definition sameSlot (a b : Cookie) : bool :=
  String.eqb (key a) (key b) && String.eqb (domain a) (domain b).

Definition stamp (t : Z) (c : Cookie) : Cookie :=
  {| key := key c; value := value c; domain := domain c;
     hostOnly := hostOnly c; expires := expires c; maxAge := maxAge c;
     creation := t |}.

(** [setCookie]: a cookie replaces the one stored for the same name and
    domain, keeping that one's creation time; a new one is added last. *)
Fixpoint setCookie (now : Z) (c : Cookie) (jar : list Cookie) : list Cookie :=
  match jar with
  | [] => [stamp now c]
  | o :: r =>
      if sameSlot o c then stamp (creation o) c :: r
      else o :: setCookie now c r
  end.

Definition setCookies (now : Z) (cs : list Cookie) (jar : list Cookie) : list Cookie :=
  fold_left (fun j c => setCookie now c j) cs jar.

End Jar.

(** ** HTTP exchanges with the account service *)

(** The four requests the program issues.  The login form also carries the
    configured credentials and [method=password]; they are constants of the
    process and are left out of the record of a request. *)
Inductive Request :=
  | ReqLoginBrowser
  | ReqLoginSubmit (flowId csrf_token : string)
  | ReqFollow (location : string)
  | ReqAvailability (username : string).

Record Response := {
  status : Z;
  location : option string;
  set_cookies : list Jar.Cookie;
  body : string
}.

(** What the network does with one request: it takes some time and then
    either fails or delivers a response. *)
Inductive Reply :=
  | NetworkFailure
  | Answer (r : Response).

Record Exchange := { latency : N; reply : Reply }.

(** ** The world the process runs in *)

Record World := {
  clock : Z;                            (* Date.now(), epoch milliseconds *)
  redis : gmap string Redis.Entry;      (* the availability keys in Redis *)
  windows : gmap (string * Z) Z;        (* the limiter's counters in Redis *)
  blockedUntil : gmap string Z;         (* the limiter's in-process cache *)
  cookieJar : list Jar.Cookie;
  sent : list Request                   (* requests issued so far, oldest first *)
}.

Definition with_clock (t : Z) (w : World) : World :=
  {| clock := t; redis := redis w; windows := windows w;
     blockedUntil := blockedUntil w; cookieJar := cookieJar w; sent := sent w |}.

Definition with_redis (db : gmap string Redis.Entry) (w : World) : World :=
  {| clock := clock w; redis := db; windows := windows w;
     blockedUntil := blockedUntil w; cookieJar := cookieJar w; sent := sent w |}.

Definition with_windows (ws : gmap (string * Z) Z) (w : World) : World :=
  {| clock := clock w; redis := redis w; windows := ws;
     blockedUntil := blockedUntil w; cookieJar := cookieJar w; sent := sent w |}.

Definition with_blockedUntil (b : gmap string Z) (w : World) : World :=
  {| clock := clock w; redis := redis w; windows := windows w;
     blockedUntil := b; cookieJar := cookieJar w; sent := sent w |}.

Definition with_cookieJar (j : list Jar.Cookie) (w : World) : World :=
  {| clock := clock w; redis := redis w; windows := windows w;
     blockedUntil := blockedUntil w; cookieJar := j; sent := sent w |}.

Definition with_sent (l : list Request) (w : World) : World :=
  {| clock := clock w; redis := redis w; windows := windows w;
     blockedUntil := blockedUntil w; cookieJar := cookieJar w; sent := l |}.

(** Time passes while the process waits. *)
Definition elapse (d : N) (w : World) : World := with_clock (clock w + Z.of_N d) w.

(** ** Asynchronous computations

    A promise settles with a value or with an error; [Exited] is the
    process having been sent SIGTERM, after which nothing of it runs. *)

Inductive Error :=
  | FlowIdMissing                               (* "Could not extract flow ID" *)
  | CsrfMissing                                 (* "Could not find CSRF token cookie" *)
  | LoginFailed (status : Z) (snippet : string) (* "Login failed: ..." *)
  | FetchError.                                 (* fetch rejected *)

Inductive Completion (A : Type) :=
  | Resolved (a : A)
  | Rejected (e : Error)
  | Exited.

Arguments Resolved {A} a.
Arguments Rejected {A} e.
Arguments Exited {A}.

Definition Async (A : Type) : Type := World -> Completion A * World.

Definition resolve {A} (a : A) : Async A := fun w => (Resolved a, w).

Definition throw {A} (e : Error) : Async A := fun w => (Rejected e, w).

Definition await {A B} (c : Async A) (k : A -> Async B) : Async B :=
  fun w =>
    match c w with
    | (Resolved a, w') => k a w'
    | (Rejected e, w') => (Rejected e, w')
    | (Exited, w') => (Exited, w')
    end.

Notation "'let*' x ':=' c 'in' k" := (await c (fun x => k))
  (at level 10, x name, c at level 100, k at level 200).

(** [Date.now()] *)
Definition Date_now : Async Z := fun w => (Resolved (clock w), w).

(** [try { await c } catch (error) { h }] *)
Definition try_catch {A} (c : Async A) (h : Error -> Async A) : Async A :=
  fun w =>
    match c w with
    | (Rejected e, w') => h e w'
    | r => r
    end.

(** [process.kill(process.pid, "SIGTERM")]: no handler is installed for the
    signal, so the process ends here. *)
Definition process_kill_SIGTERM {A} : Async A := fun w => (Exited, w).

(** ** The rate limiter

    [new Ratelimit({ redis, limiter: Ratelimit.slidingWindow(30, "60 s"),
    prefix: "hytale:ratelimit" })].  [limit(identifier, req)] counts under
    the key [prefix:identifier]; the fields of [req] ([ip] here) are the
    members looked up in the package's deny list, a lookup that is made only
    when the limiter is built with protection enabled, which this one is
    not.  The sliding window keeps one counter per key and clock-aligned
    window in Redis and weighs the previous window's counter by the part of
    it that the rolling window still covers.  A denied identifier is
    remembered in an in-process cache until the window's reset time.
    The quotient is taken exactly here; the server computes it in floating
    point.  The counters' own expiry (two windows and a second) lies beyond
    the last time a counter is read and is not modelled.  The script
    reaches Redis through [createIoRedisAdapter], which hands keys and
    arguments on as they are, and the store is taken to answer within the
    package's timeout. *)

Module Ratelimit.

Definition tokens : Z := 30.
Definition windowSize : Z := 60 * 1000.
Definition prefix : string := "hytale:ratelimit".

Record LimitOptions := { ip : string }.

Record RatelimitResponse := {
  success : bool;
  limit_ : Z;
  remaining : Z;
  reset : Z
}.

Definition getKey (identifier : string) : string := prefix ++ ":" ++ identifier.

Definition counter (k : string * Z) (ws : gmap (string * Z) Z) : Z :=
  default 0 (ws !! k).

(** The previous window's requests that still count at [now]. *)
Definition weighted (now inPrevious : Z) : Z :=
  ((windowSize - now mod windowSize) * inPrevious) / windowSize.

(** The script run inside Redis: the remaining tokens after this request,
    or -1 with nothing counted when the window is full. *)
Definition slidingWindowScript (currentKey previousKey : string * Z) (now : Z)
    (ws : gmap (string * Z) Z) : Z * gmap (string * Z) Z :=
  let requestsInCurrentWindow := counter currentKey ws in
  let requestsInPreviousWindow := weighted now (counter previousKey ws) in
  if tokens <=? requestsInPreviousWindow + requestsInCurrentWindow then (-1, ws)
  else
    let newValue := requestsInCurrentWindow + 1 in
    (tokens - (newValue + requestsInPreviousWindow), <[currentKey := newValue]> ws).

(** The in-process cache: blocked while the remembered reset time has not
    passed; a stale entry is removed. *)
Definition isBlocked (identifier : string) (now : Z) (b : gmap string Z)
    : option Z * gmap string Z :=
  match b !! identifier with
  | None => (None, b)
  | Some r => if r <? now then (None, delete identifier b) else (Some r, b)
  end.

Definition limit (identifier : string) (req : LimitOptions) (lat : N)
    : Async RatelimitResponse :=
  fun w =>
    let key := getKey identifier in
    let now := clock w in
    let currentWindow := now / windowSize in
    let currentKey := (key, currentWindow) in
    let previousKey := (key, currentWindow - 1) in
    match isBlocked key now (blockedUntil w) with
    | (Some r, b) =>
        (Resolved {| success := false; limit_ := tokens; remaining := 0; reset := r |},
         with_blockedUntil b w)
    | (None, b) =>
        let '(remainingTokens, ws) :=
          slidingWindowScript currentKey previousKey now (windows w) in
        let ok := 0 <=? remainingTokens in
        let reset := (currentWindow + 1) * windowSize in
        let b' := if ok then b else <[key := reset]> b in
        (Resolved {| success := ok; limit_ := tokens;
                     remaining := Z.max 0 remainingTokens; reset := reset |},
         elapse lat (with_blockedUntil b' (with_windows ws w)))
    end.

End Ratelimit.

(** ** The availability cache *)

Definition CACHE_PREFIX : string := "hytale:username:".
Definition AVAILABLE_TTL : Z := 60.

(** [redis.get(key)] and [redis.set(key, v)], [redis.set(key, v, "EX", s)]:
    the command reaches the server after [lat] milliseconds. *)
Definition redis_get (lat : N) (key : string) : Async (option string) :=
  fun w =>
    let w1 := elapse lat w in
    (Resolved (Redis.get (clock w1) key (redis w1)), w1).

Definition redis_set (lat : N) (key v : string) (ex : option Z) : Async unit :=
  fun w =>
    let w1 := elapse lat w in
    (Resolved tt, with_redis (Redis.set (clock w1) key v ex (redis w1)) w1).

Definition getCachedAvailability (lat : N) (username : string) : Async (option bool) :=
  let* cached := redis_get lat (CACHE_PREFIX ++ Str.toLowerCase username) in
  match cached with
  | None => resolve None
  | Some c => resolve (Some (String.eqb c "1"))
  end.

Definition setCachedAvailability (lat : N) (username : string) (available : bool)
    : Async unit :=
  let key := CACHE_PREFIX ++ Str.toLowerCase username in
  if available then redis_set lat key "1" (Some AVAILABLE_TTL)
  else redis_set lat key "0" None.

(** ** The session *)

Definition HYTALE : string := "hytale.com".
Definition BACKEND : string := "backend.accounts.hytale.com".
Definition SESSION_COOKIE : string := "ory_kratos_session".

(** A [Date] object: [new Date("Infinity")] is an invalid date, whose
    [getTime()] is NaN. *)
Inductive JsDate :=
  | InvalidDate
  | ValidDate (t : Z).

(** [cookies.find(c => c.key === "ory_kratos_session")] over
    [cookieJar.getCookiesSync("https://hytale.com")] *)
Definition sessionCookie (now : Z) (jar : list Jar.Cookie) : option Jar.Cookie :=
  List.find (fun c => String.eqb (Jar.key c) SESSION_COOKIE)
            (Jar.getCookies HYTALE now jar).

(** A comparison with NaN is false. *)
Definition isSessionValid (now : Z) (jar : list Jar.Cookie) : bool :=
  match sessionCookie now jar with
  | None => false
  | Some c =>
      match Jar.expires c with
      | Jar.ExpNull => false
      | Jar.ExpInfinity => false
      | Jar.ExpDate expiresAt => now <? expiresAt - 5 * 60 * 1000
      end
  end.

Definition getSessionExpiry (now : Z) (jar : list Jar.Cookie) : option JsDate :=
  match sessionCookie now jar with
  | None => None
  | Some c =>
      match Jar.expires c with
      | Jar.ExpNull => None
      | Jar.ExpInfinity => Some InvalidDate
      | Jar.ExpDate t => Some (ValidDate t)
      end
  end.

(** [fetchWithCookies(url, init)]: the request goes out at once; when the
    reply arrives its Set-Cookie headers are stored in the jar.  With
    [redirect: "follow"] the exchange stands for the whole redirect chain. *)
Definition send (req : Request) (w : World) : World :=
  with_sent (sent w ++ [req])%list w.

Definition receive (x : Exchange) : Async Response :=
  fun w =>
    let w1 := elapse (latency x) w in
    match reply x with
    | NetworkFailure => (Rejected FetchError, w1)
    | Answer r =>
        (Resolved r,
         with_cookieJar (Jar.setCookies (clock w1) (set_cookies r) (cookieJar w1)) w1)
    end.

Definition fetchWithCookies (req : Request) (x : Exchange) : Async Response :=
  fun w => receive x (send req w).

(** [await cookieJar.getCookies(url)] *)
Definition cookieJar_getCookies (host : string) : Async (list Jar.Cookie) :=
  fun w => (Resolved (Jar.getCookies host (clock w) (cookieJar w)), w).

(** What the network answers to the three requests of one login. *)
Record LoginEnv := {
  init_x : Exchange;
  submit_x : Exchange;
  follow_x : Exchange
}.

Definition csrfCookie (cookies : list Jar.Cookie) : option Jar.Cookie :=
  List.find (fun c => Str.startsWith "csrf_token" (Jar.key c)) cookies.

Definition login_after_submit (env : LoginEnv) (loginResponse : Response) : Async unit :=
  let redirectLocation := location loginResponse in
  match redirectLocation with
  | None =>
      throw (LoginFailed (status loginResponse)
                         (String.substring 0 200 (body loginResponse)))
  | Some l =>
      if negb (status loginResponse =? 303) || negb (Str.includes "/settings" l)
      then throw (LoginFailed (status loginResponse)
                              (String.substring 0 200 (body loginResponse)))
      else
        let* _ := fetchWithCookies (ReqFollow l) (follow_x env) in
        resolve tt
  end.

Definition login_after_init (env : LoginEnv) (initResponse : Response) : Async unit :=
  match location initResponse ≫= Str.flowMatch with
  | None => throw FlowIdMissing
  | Some flowId =>
      let* cookies := cookieJar_getCookies BACKEND in
      match csrfCookie cookies with
      | None => throw CsrfMissing
      | Some csrf =>
          let* loginResponse :=
            fetchWithCookies (ReqLoginSubmit flowId (Jar.value csrf)) (submit_x env) in
          login_after_submit env loginResponse
      end
  end.

Definition login (env : LoginEnv) : Async unit :=
  let* initResponse := fetchWithCookies ReqLoginBrowser (init_x env) in
  login_after_init env initResponse.

Definition ensureLoggedIn (env : LoginEnv) : Async unit :=
  fun w =>
    if isSessionValid (clock w) (cookieJar w) then resolve tt w
    else try_catch (login env) (fun _ => process_kill_SIGTERM) w.

(** ** The orchestrator *)

Inductive CheckResult :=
  | Ok (available cached : bool)          (* { ok: true, available, cached } *)
  | HytaleApiError (status : Z)           (* { ok: false, error: "hytale_api_error", status } *)
  | RateLimited (retryAfter : Z).         (* { ok: false, error: "rate_limited", retryAfter } *)

(** [Math.ceil(d / 1000)] for an integer number of milliseconds [d]. *)
Definition ceil_seconds (d : Z) : Z := - ((- d) / 1000).

(** The delays of the three store round trips of one check and what the
    availability endpoint answers if asked. *)
Record CheckEnv := {
  get_lat : N;
  limit_lat : N;
  origin_x : Exchange;
  set_lat : N
}.

Definition checkUsername (env : CheckEnv) (username ip : string) : Async CheckResult :=
  let* cached := getCachedAvailability (get_lat env) username in
  match cached with
  | Some c => resolve (Ok c true)
  | None =>
      let* rateLimit :=
        Ratelimit.limit "check_username" {| Ratelimit.ip := ip |} (limit_lat env) in
      if negb (Ratelimit.success rateLimit) then
        let* now := Date_now in
        resolve (RateLimited (ceil_seconds (Ratelimit.reset rateLimit - now)))
      else
        let* response := fetchWithCookies (ReqAvailability username) (origin_x env) in
        if negb (status response =? 200) && negb (status response =? 400)
        then resolve (HytaleApiError (status response))
        else
          let available := status response =? 200 in
          let* _ := setCachedAvailability (set_lat env) username available in
          resolve (Ok available false)
  end.

(** ** The HTTP handlers *)

(** What [GET /check/:username] answers: 200 with
    [{ username, available, cached }], 429 with a retry-after header, or
    502 with the upstream status. *)
Inductive CheckReply :=
  | Reply200 (username : string) (available cached : bool)
  | Reply429 (retryAfter : Z)
  | Reply502 (status : Z).

Record HandlerEnv := {
  login_env : LoginEnv;
  check_env : CheckEnv
}.

(** [address] is [server?.requestIP(request)?.address]. *)
Definition check_handler (env : HandlerEnv) (username : string)
    (address : option string) : Async CheckReply :=
  let* _ := ensureLoggedIn (login_env env) in
  let ip := default "unknown" address in
  let* result := checkUsername (check_env env) username ip in
  match result with
  | RateLimited retryAfter => resolve (Reply429 retryAfter)
  | HytaleApiError st => resolve (Reply502 st)
  | Ok available cached => resolve (Reply200 username available cached)
  end.

(** The body of [GET /status].  [hoursLeft] is a number of hundredths of an
    hour: [Number(h.toFixed(2))] for [h] the millisecond difference divided
    by 1000, 60 and 60, rounded to the nearest hundredth, halves away from
    zero (the quotient is taken exactly). *)
Record Status := {
  loggedIn : bool;
  expiresAt : option Z;
  hoursLeft : option Z
}.

Definition toFixed2 (ms : Z) : Z := Z.sgn ms * ((Z.abs ms + 18000) / 36000).

(** [expiresAt.getTime() - Date.now()], NaN for an invalid date. *)
Definition msLeft (now : Z) (d : JsDate) : option Z :=
  match d with
  | InvalidDate => None
  | ValidDate t => Some (t - now)
  end.

(** Truthiness of a number: 0 and NaN are falsy. *)
Definition truthy (n : option Z) : bool :=
  match n with
  | None => false
  | Some d => negb (d =? 0)
  end.

(** [RangeError: Invalid time value], thrown by [toISOString] on an
    invalid date. *)
Inductive Thrown (A : Type) :=
  | Returns (a : A)
  | RangeError.

Arguments Returns {A} a.
Arguments RangeError {A}.

Definition status_handler (now : Z) (jar : list Jar.Cookie) : Thrown Status :=
  let loggedIn := isSessionValid now jar in
  let expiresAt := getSessionExpiry now jar in
  let hoursLeft := expiresAt ≫= msLeft now in
  match expiresAt with
  | Some InvalidDate => RangeError
  | _ =>
      Returns {| loggedIn := loggedIn;
                 expiresAt := match expiresAt with
                              | Some (ValidDate t) => Some t
                              | _ => None
                              end;
                 hoursLeft := if truthy hoursLeft then toFixed2 <$> hoursLeft else None |}
  end.

(** ** Concurrent callers of [ensureLoggedIn]

    The runtime runs one piece of code at a time and switches between
    callers only where one of them awaits.  A call of [ensureLoggedIn] is
    therefore a small machine whose steps are the stretches of code between
    two awaits: each step runs to the next request sent, and the next step
    starts when that request's reply arrives.  (The await of the jar in
    [login] involves no I/O and is folded into the step around it.) *)

Module Conc.

Inductive Task :=
  | Called            (* ensureLoggedIn() has been called and not run yet *)
  | AwaitingInit      (* login() awaits GET /self-service/login/browser *)
  | AwaitingSubmit    (* login() awaits POST /self-service/login?flow=... *)
  | AwaitingFollow    (* login() awaits the redirect chain *)
  | Returned          (* the promise resolved *)
  | Killed.           (* the catch block sent SIGTERM *)

Definition start (w : World) : Task * World :=
  if isSessionValid (clock w) (cookieJar w) then (Returned, w)
  else (AwaitingInit, send ReqLoginBrowser w).

Definition on_init (x : Exchange) (w : World) : Task * World :=
  match receive x w with
  | (Resolved initResponse, w1) =>
      match location initResponse ≫= Str.flowMatch with
      | None => (Killed, w1)
      | Some flowId =>
          match csrfCookie (Jar.getCookies BACKEND (clock w1) (cookieJar w1)) with
          | None => (Killed, w1)
          | Some csrf =>
              (AwaitingSubmit, send (ReqLoginSubmit flowId (Jar.value csrf)) w1)
          end
      end
  | (_, w1) => (Killed, w1)
  end.

Definition on_submit (x : Exchange) (w : World) : Task * World :=
  match receive x w with
  | (Resolved loginResponse, w1) =>
      match location loginResponse with
      | None => (Killed, w1)
      | Some l =>
          if negb (status loginResponse =? 303) || negb (Str.includes "/settings" l)
          then (Killed, w1)
          else (AwaitingFollow, send (ReqFollow l) w1)
      end
  | (_, w1) => (Killed, w1)
  end.

Definition on_follow (x : Exchange) (w : World) : Task * World :=
  match receive x w with
  | (Resolved _, w1) => (Returned, w1)
  | (_, w1) => (Killed, w1)
  end.

(** One step of one caller; [x] is the reply it was waiting for. *)
Definition step_task (x : Exchange) (t : Task) (w : World) : Task * World :=
  match t with
  | Called => start w
  | AwaitingInit => on_init x w
  | AwaitingSubmit => on_submit x w
  | AwaitingFollow => on_follow x w
  | Returned => (Returned, w)
  | Killed => (Killed, w)
  end.

Definition completion (t : Task) : option (Completion unit) :=
  match t with
  | Returned => Some (Resolved tt)
  | Killed => Some Exited
  | _ => None
  end.

(** A caller running with nobody else around. *)
Definition run_alone (env : LoginEnv) (w : World) : Task * World :=
  let '(t1, w1) := step_task (init_x env) Called w in
  let '(t2, w2) := step_task (init_x env) t1 w1 in
  let '(t3, w3) := step_task (submit_x env) t2 w2 in
  step_task (follow_x env) t3 w3.

(** The process: its callers and the world they share. *)
Record Proc := {
  tasks : list Task;
  world : World
}.

Definition dead (p : Proc) : bool :=
  existsb (fun t => match t with Killed => true | _ => false end) (tasks p).

(** The scheduler resumes caller [i] with reply [x]; a process that was
    sent SIGTERM runs nothing more. *)
Definition step (i : nat) (x : Exchange) (p : Proc) : Proc :=
  if dead p then p
  else
    match tasks p !! i with
    | None => p
    | Some t =>
        let '(t', w') := step_task x t (world p) in
        {| tasks := <[i := t']> (tasks p); world := w' |}
    end.

Definition run (schedule : list (nat * Exchange)) (p : Proc) : Proc :=
  fold_left (fun q s => step (fst s) (snd s) q) schedule p.

Definition awaiting (t : Task) : bool :=
  match t with
  | AwaitingInit | AwaitingSubmit | AwaitingFollow => true
  | _ => false
  end.

(** The number of login attempts in flight. *)
Definition in_flight (ts : list Task) : nat :=
  List.length (List.filter awaiting ts).

(** The requests of [sent] that begin a login. *)
Definition logins_started (w : World) : nat :=
  List.length (List.filter (fun r => match r with ReqLoginBrowser => true | _ => false end)
                           (sent w)).

End Conc.

(** ** Sequences of limiter calls *)

(** The outcome of a sequence of [limit] calls, each for one caller address
    at one time, on the operation name the orchestrator uses. *)
Fixpoint limits (calls : list (string * Z)) (w : World) : list bool :=
  match calls with
  | [] => []
  | (ip, now) :: rest =>
      match Ratelimit.limit "check_username" {| Ratelimit.ip := ip |} 0
                            (with_clock now w) with
      | (Resolved r, w') => Ratelimit.success r :: limits rest w'
      | (_, w') => false :: limits rest w'
      end
  end.

(** The permits granted to [ip] at times satisfying [sel]. *)
Fixpoint granted (sel : Z -> bool) (ip : string)
    (calls : list (string * Z)) (outcomes : list bool) : Z :=
  match calls, outcomes with
  | (a, now) :: cs, ok :: os =>
      (if ok && String.eqb a ip && sel now then 1 else 0) + granted sel ip cs os
  | _, _ => 0
  end.

Definition in_rolling (from : Z) (now : Z) : bool :=
  (from <=? now) && (now <? from + Ratelimit.windowSize).

Definition in_aligned (k : Z) (now : Z) : bool :=
  now / Ratelimit.windowSize =? k.

(** The world of a process that has just started, at time [t]. *)
Definition fresh (t : Z) : World :=
  {| clock := t; redis := ∅; windows := ∅; blockedUntil := ∅;
     cookieJar := []; sent := [] |}.

(** ** The first version of the service

    The program as it was before the cache and the limiter were added: the
    session is probed over the network, a failed login is not caught, and
    every status other than 200 counts as taken.  [login] is the same
    function in both versions. *)

Module V1.

(** The probe asks for the availability of the name [test] without
    following redirects. *)
Definition isLoggedIn (probe : Exchange) : Async bool :=
  let* response := fetchWithCookies (ReqAvailability "test") probe in
  resolve ((status response =? 200) || (status response =? 400)).

Definition getSessionExpiry : Async (option JsDate) :=
  let* cookies := cookieJar_getCookies HYTALE in
  match List.find (fun c => String.eqb (Jar.key c) SESSION_COOKIE) cookies with
  | None => resolve None
  | Some c =>
      match Jar.expires c with
      | Jar.ExpNull => resolve None
      | Jar.ExpInfinity => resolve (Some InvalidDate)
      | Jar.ExpDate t => resolve (Some (ValidDate t))
      end
  end.

Definition ensureLoggedIn (probe : Exchange) (env : LoginEnv) : Async unit :=
  let* ok := isLoggedIn probe in
  if negb ok then login env else resolve tt.

Definition checkUsername (username : string) (x : Exchange) : Async bool :=
  let* response := fetchWithCookies (ReqAvailability username) x in
  resolve (status response =? 200).

(** What the network answers during one [GET /check/:username]. *)
Record HandlerEnv := {
  probe_x : Exchange;
  login_env : LoginEnv;
  check_x : Exchange
}.

(** The body [{ username, available }]. *)
Definition check_handler (env : HandlerEnv) (username : string) : Async (string * bool) :=
  let* _ := ensureLoggedIn (probe_x env) (login_env env) in
  let* available := checkUsername username (check_x env) in
  resolve (username, available).

(** [GET /status] *)
Definition status_handler (probe : Exchange) : Async (Thrown Status) :=
  let* loggedIn := isLoggedIn probe in
  let* expiresAt := getSessionExpiry in
  let* now := Date_now in
  let hoursLeft := expiresAt ≫= msLeft now in
  match expiresAt with
  | Some InvalidDate => resolve RangeError
  | _ =>
      resolve (Returns
        {| loggedIn := loggedIn;
           expiresAt := match expiresAt with
                        | Some (ValidDate t) => Some t
                        | _ => None
                        end;
           hoursLeft := if truthy hoursLeft then toFixed2 <$> hoursLeft else None |})
  end.

End V1.

(** ** The adapter between the limiter and the Redis client

    [createIoRedisAdapter(client)]: each method hands its arguments to the
    client's command of the same name.  The client is the store modelled in
    [Redis]; it refuses [SET ... EX s] for an [s] that is not positive.
    [ex] is taken to be a whole number. *)

Module Adapter.

Record SetOptions := { ex : option Z }.

(** [client.set(key, value)] and [client.set(key, value, 'EX', s)]:
    [None] is the command refused, with nothing stored. *)
Definition client_set (now : Z) (key value : string) (EX : option Z)
    (db : gmap string Redis.Entry) : option (gmap string Redis.Entry) :=
  match EX with
  | Some s => if s <=? 0 then None else Some (Redis.set now key value (Some s) db)
  | None => Some (Redis.set now key value None db)
  end.

(** [get: async (key) => client.get(key)] *)
Definition get (now : Z) (key : string) (db : gmap string Redis.Entry) : option string :=
  Redis.get now key db.

(** [set]: [if (options?.ex)] holds for an [ex] that is present and not 0. *)
Definition set (now : Z) (key value : string) (options : option SetOptions)
    (db : gmap string Redis.Entry) : option (gmap string Redis.Entry) :=
  match options ≫= ex with
  | Some s =>
      if negb (s =? 0) then client_set now key value (Some s) db
      else client_set now key value None db
  | None => client_set now key value None db
  end.

(** A script call as it goes over the wire: the script or its digest, the
    number of keys, then the keys and the arguments in one row. *)
Record ScriptCall := {
  script : string;
  numkeys : nat;
  row : list string
}.

(** [client.eval(script, keys.length, ...keys, ...(args ?? []).map(String))];
    [toString] is [String] on the arguments' type. *)
Definition eval {A : Type} (toString : A -> string) (script : string)
    (keys : list string) (args : option (list A)) : ScriptCall :=
  {| script := script; numkeys := List.length keys;
     row := (keys ++ List.map toString (default [] args))%list |}.

(** [client.evalsha(sha1, keys.length, ...keys, ...(args as string[]))] *)
Definition evalsha (sha1 : string) (keys : list string) (args : list string) : ScriptCall :=
  {| script := sha1; numkeys := List.length keys; row := (keys ++ args)%list |}.

(** What the server binds to [KEYS] and to [ARGV]. *)
Definition KEYS (c : ScriptCall) : list string := take (numkeys c) (row c).
Definition ARGV (c : ScriptCall) : list string := drop (numkeys c) (row c).

End Adapter.

(** ** The environment schema

    [CORS_ORIGINS] is a comma-separated list: the value is split at the
    commas, each piece is trimmed, and the empty pieces are dropped; what
    is left must be at least one origin, each a valid URL.  The URL check
    is the schema library's and is a parameter here.  [trim] removes the
    ASCII white space and line ends (tab, line feed, vertical tab, form
    feed, carriage return, space); other code units are left alone.  With
    [emptyStringAsUndefined] an empty variable counts as unset. *)

Module Env.

Definition isSpace (c : ascii) : bool :=
  let n := nat_of_ascii c in
  (((9 <=? n)%nat && (n <=? 13)%nat) || (n =? 32)%nat)%bool.

Fixpoint trimStart (s : string) : string :=
  match s with
  | EmptyString => EmptyString
  | String c r => if isSpace c then trimStart r else s
  end.

Fixpoint trimEnd (s : string) : string :=
  match s with
  | EmptyString => EmptyString
  | String c r =>
      match trimEnd r with
      | EmptyString => if isSpace c then EmptyString else String c EmptyString
      | r' => String c r'
      end
  end.

(** [origin.trim()] *)
Definition trim (s : string) : string := trimEnd (trimStart s).

(** [val.split(',')]: one piece more than there are commas. *)
Fixpoint split (s : string) : list string :=
  match s with
  | EmptyString => [EmptyString]
  | String c r =>
      if Ascii.eqb c "," then EmptyString :: split r
      else match split r with
           | h :: t => String c h :: t
           | [] => [String c EmptyString]
           end
  end.

(** [val.split(',').map(origin => origin.trim()).filter(origin => origin.length > 0)] *)
Definition origins (val : string) : list string :=
  List.filter (fun origin => negb (String.eqb origin EmptyString))
              (List.map trim (split val)).

(** The value of [CORS_ORIGINS] after validation, [None] when the schema
    rejects it. *)
Definition CORS_ORIGINS (isUrl : string -> bool) (raw : option string)
    : option (list string) :=
  match raw with
  | None => None
  | Some EmptyString => None
  | Some val =>
      let os := origins val in
      if forallb isUrl os && (1 <=? List.length os)%nat then Some os else None
  end.

End Env.

(** A string of ASCII characters only; on such a string [Str.toLowerCase]
    is all that [String.prototype.toLowerCase] does. *)
Definition asciiOnly (s : string) : Prop :=
  forall c : ascii, In c (list_ascii_of_string s) -> (nat_of_ascii c < 128)%nat.

(** A string without a comma, and a string that neither begins nor ends
    with white space. *)
Definition noComma (s : string) : Prop :=
  ~ In ","%char (list_ascii_of_string s).

Definition trimmed (s : string) : Prop :=
  Env.trimStart s = s /\ Env.trimEnd s = s.

(** ** Reading the cache from outside *)

Definition cacheKey (username : string) : string :=
  CACHE_PREFIX ++ Str.toLowerCase username.

(** The entry the cache holds for a user name at time [t], if any. *)
Definition cacheHolds (t : Z) (username : string) (w : World) : option string :=
  Redis.get t (cacheKey username) (redis w).

(** Does the limiter let a check of [env] by [ip] through, the cache having
    been looked up in [w]? *)
Definition admits (env : CheckEnv) (ip : string) (w : World) : bool :=
  match fst (Ratelimit.limit "check_username" {| Ratelimit.ip := ip |} (limit_lat env)
                             (elapse (get_lat env) w)) with
  | Resolved r => Ratelimit.success r
  | _ => false
  end.

(** The user names asked of the availability endpoint, oldest first. *)
Definition availability_requests (l : list Request) : list string :=
  omap (fun r => match r with ReqAvailability u => Some u | _ => None end) l.

(** Does a check of [env] find nothing in the cache for the name? *)
Definition misses (env : CheckEnv) (username : string) (w : World) : bool :=
  match cacheHolds (clock w + Z.of_N (get_lat env)) username w with
  | None => true
  | Some _ => false
  end.

(** The key and clock-aligned window under which a check of [env] is
    counted by the limiter. *)
Definition countedUnder (env : CheckEnv) (w : World) : string * Z :=
  (Ratelimit.getKey "check_username",
   (clock w + Z.of_N (get_lat env)) / Ratelimit.windowSize).

(** No remembered reset time lies more than a window ahead of the clock. *)
Definition blocked_sane (w : World) : Prop :=
  forall (key : string) (r : Z),
    blockedUntil w !! key = Some r -> r <= clock w + Ratelimit.windowSize.

(** What a login leaves alone: the store, the limiter, and the list of
    availability requests. *)
Definition untouched_by_login (w w' : World) : Prop :=
  redis w' = redis w /\ windows w' = windows w /\ blockedUntil w' = blockedUntil w
  /\ availability_requests (sent w') = availability_requests (sent w).

(** ** The ways a login fails *)

(** The world when the reply to the first request of a login has arrived. *)
Definition after_init (env : LoginEnv) (w : World) : World :=
  snd (fetchWithCookies ReqLoginBrowser (init_x env) w).

(** The four failures of the login protocol, told by what the account
    service answers, each with the error [login] throws for it. *)
Inductive LoginFailure (env : LoginEnv) (w : World) : Error -> Prop :=
  | NoFlowId (r1 : Response) :
      reply (init_x env) = Answer r1 ->
      location r1 ≫= Str.flowMatch = None ->
      LoginFailure env w FlowIdMissing
  | NoCsrfCookie (r1 : Response) (flowId : string) :
      reply (init_x env) = Answer r1 ->
      location r1 ≫= Str.flowMatch = Some flowId ->
      csrfCookie (Jar.getCookies BACKEND (clock (after_init env w))
                                 (cookieJar (after_init env w))) = None ->
      LoginFailure env w CsrfMissing
  | CredentialsRejected (r1 r2 : Response) (flowId : string) (c : Jar.Cookie) :
      reply (init_x env) = Answer r1 ->
      location r1 ≫= Str.flowMatch = Some flowId ->
      csrfCookie (Jar.getCookies BACKEND (clock (after_init env w))
                                 (cookieJar (after_init env w))) = Some c ->
      reply (submit_x env) = Answer r2 ->
      status r2 <> 303 ->
      LoginFailure env w (LoginFailed (status r2) (String.substring 0 200 (body r2)))
  | WrongRedirect (r1 r2 : Response) (flowId : string) (c : Jar.Cookie) :
      reply (init_x env) = Answer r1 ->
      location r1 ≫= Str.flowMatch = Some flowId ->
      csrfCookie (Jar.getCookies BACKEND (clock (after_init env w))
                                 (cookieJar (after_init env w))) = Some c ->
      reply (submit_x env) = Answer r2 ->
      status r2 = 303 ->
      (forall l, location r2 = Some l -> Str.includes "/settings" l = false) ->
      LoginFailure env w (LoginFailed (status r2) (String.substring 0 200 (body r2))).

(** A login that goes through, told by what the account service answers:
    the flow id found in the first redirect, the CSRF token found in the
    jar, and the location of the second redirect. *)
Inductive LoginAccepted (env : LoginEnv) (w : World) : string -> string -> string -> Prop :=
  | Accepted (r1 r2 r3 : Response) (flowId l : string) (c : Jar.Cookie) :
      reply (init_x env) = Answer r1 ->
      location r1 ≫= Str.flowMatch = Some flowId ->
      csrfCookie (Jar.getCookies BACKEND (clock (after_init env w))
                                 (cookieJar (after_init env w))) = Some c ->
      reply (submit_x env) = Answer r2 ->
      status r2 = 303 ->
      location r2 = Some l ->
      Str.includes "/settings" l = true ->
      reply (follow_x env) = Answer r3 ->
      LoginAccepted env w flowId (Jar.value c) l.

(** ** Scenarios *)

(** A start-up time, an answer of the account service with a given status
    and no cookies, and the environment of a check whose origin call gets
    that answer. *)
Definition t0 : Z := 1700000000000.

Definition plain (st : Z) : Response :=
  {| status := st; location := None; set_cookies := []; body := EmptyString |}.

Definition answer (st : Z) : Exchange :=
  {| latency := 20; reply := Answer (plain st) |}.

Definition env_with (st : Z) : CheckEnv :=
  {| get_lat := 1; limit_lat := 2; origin_x := answer st; set_lat := 1 |}.

(** The world after [n] checks in a row of one name by one caller, each
    answered by the origin with status [st]. *)
Definition after_checks (n : nat) (st : Z) (username ip : string) (w : World) : World :=
  Nat.iter n (fun v => snd (checkUsername (env_with st) username ip v)) w.

(** A login that succeeds: the flow is announced with a CSRF cookie, the
    credentials are accepted with a redirect to the settings page and a
    session cookie that expires at [expiry]. *)
Definition csrf : Jar.Cookie :=
  {| Jar.key := "csrf_token_82b119fa58a0a1cb6faa9738c1d0dbbf04fcc89a657b7beb31fcde400275a413";
     Jar.value := "dG9rZW4="; Jar.domain := BACKEND; Jar.hostOnly := true;
     Jar.expires := Jar.ExpInfinity; Jar.maxAge := Some 31536000; Jar.creation := 0 |}.

Definition session (expiry : Z) : Jar.Cookie :=
  {| Jar.key := SESSION_COOKIE; Jar.value := "MTcwMA=="; Jar.domain := HYTALE;
     Jar.hostOnly := false; Jar.expires := Jar.ExpDate expiry; Jar.maxAge := None;
     Jar.creation := 0 |}.

Definition good_login (expiry : Z) : LoginEnv :=
  {| init_x :=
       {| latency := 30;
          reply := Answer
            {| status := 303;
               location := Some "https://accounts.hytale.com/login?flow=5f1c0b2e-77aa-4d0e-9c3b-0a1b2c3d4e5f";
               set_cookies := [csrf]; body := EmptyString |} |};
     submit_x :=
       {| latency := 40;
          reply := Answer
            {| status := 303;
               location := Some "https://accounts.hytale.com/settings";
               set_cookies := [session expiry]; body := EmptyString |} |};
     follow_x := {| latency := 50; reply := Answer (plain 200) |} |}.

Definition hour : Z := 60 * 60 * 1000.

(** The process logged in at start-up with a session of one hour, learnt
    that a name is taken, and then ran until four minutes before the
    session cookie expires. *)
Definition near_expiry : World :=
  let w1 := snd (ensureLoggedIn (good_login (t0 + hour)) (fresh t0)) in
  let w2 := snd (checkUsername (env_with 400) "takenname" "203.0.113.7" w1) in
  with_clock (t0 + hour - 4 * 60 * 1000) w2.

Definition renewing : HandlerEnv :=
  {| login_env := good_login (t0 + 2 * hour); check_env := env_with 400 |}.

(** One caller asks 30 times in the last millisecond of a clock-aligned
    window and 30 times again 59 seconds into the next one. *)
Definition two_bursts : list (string * Z) :=
  (repeat ("203.0.113.7", t0 + 39999) 30 ++ repeat ("203.0.113.7", t0 + 99000) 30)%list.

(** One caller uses up the window; then another caller asks. *)
Definition crowded_out : list (string * Z) :=
  (repeat ("203.0.113.7", t0) 30 ++ [("198.51.100.22", t0 + 1)])%list.

(** Every counter of the limiter lies between 0 and the number of tokens. *)
Definition counters_bounded (ws : gmap (string * Z) Z) : Prop :=
  forall k : string * Z, 0 <= Ratelimit.counter k ws <= Ratelimit.tokens.


(** Logins that fail: the redirect of the first request names no flow;
    no CSRF cookie comes with it; the credentials are answered with a 400;
    the credentials are answered with a redirect back to the login page. *)
Definition redirect (st : Z) (l : string) (cs : list Jar.Cookie) (b : string) : Exchange :=
  {| latency := 30;
     reply := Answer {| status := st; location := Some l; set_cookies := cs; body := b |} |}.

Definition login_without_flow : LoginEnv :=
  {| init_x := redirect 303 "https://accounts.hytale.com/login" [csrf] EmptyString;
     submit_x := submit_x (good_login 0);
     follow_x := follow_x (good_login 0) |}.

Definition login_without_csrf : LoginEnv :=
  {| init_x := redirect 303 "https://accounts.hytale.com/login?flow=5f1c0b2e-77aa-4d0e-9c3b-0a1b2c3d4e5f" [] EmptyString;
     submit_x := submit_x (good_login 0);
     follow_x := follow_x (good_login 0) |}.

Definition login_rejected : LoginEnv :=
  {| init_x := init_x (good_login 0);
     submit_x := {| latency := 40;
                    reply := Answer {| status := 400; location := None; set_cookies := [];
                                       body := "The provided credentials are invalid" |} |};
     follow_x := follow_x (good_login 0) |}.

Definition login_misdirected : LoginEnv :=
  {| init_x := init_x (good_login 0);
     submit_x := redirect 303 "https://accounts.hytale.com/login?flow=5f1c0b2e-77aa-4d0e-9c3b-0a1b2c3d4e5f" [] EmptyString;
     follow_x := follow_x (good_login 0) |}.

(** Two requests arrive while the session is not valid, the second while
    the first one's login is waiting for its first reply. *)
Definition two_callers : Conc.Proc :=
  {| Conc.tasks := [Conc.Called; Conc.Called]; Conc.world := fresh t0 |}.

Definition both_start : list (nat * Exchange) :=
  [(0%nat, init_x (good_login (t0 + hour))); (1%nat, init_x (good_login (t0 + hour)))].

(** A request arrives just after the process has logged in. *)
Definition one_caller : Conc.Proc :=
  {| Conc.tasks := [Conc.Called];
     Conc.world := snd (ensureLoggedIn (good_login (t0 + hour)) (fresh t0)) |}.

(** ** Sequences of checks *)

(** A check as it reaches the orchestrator: the time, the delays and the
    origin's answer it will meet, the name asked for and the caller's
    address. *)
Record Arrival := {
  arrives : Z;
  conditions : CheckEnv;
  asks : string;
  caller : string
}.

(** The outcomes of a sequence of checks, one after the other. *)
Fixpoint checks (arrivals : list Arrival) (w : World) : list (Completion CheckResult) :=
  match arrivals with
  | [] => []
  | a :: rest =>
      let '(c, w') :=
        checkUsername (conditions a) (asks a) (caller a) (with_clock (arrives a) w) in
      c :: checks rest w'
  end.

(** Was the check granted a permit?  It was unless it was answered from
    the cache or turned away by the limiter. *)
Definition permitted (c : Completion CheckResult) : bool :=
  match c with
  | Resolved (Ok _ true) => false
  | Resolved (RateLimited _) => false
  | _ => true
  end.

(** The permits granted to [ip] at times satisfying [sel]; the time of a
    check is the one at which the limiter reads the clock. *)
Fixpoint permits (sel : Z -> bool) (ip : string) (arrivals : list Arrival)
    (outcomes : list (Completion CheckResult)) : Z :=
  match arrivals, outcomes with
  | a :: rest, c :: cs =>
      (if permitted c && String.eqb (caller a) ip
          && sel (arrives a + Z.of_N (get_lat (conditions a)))
       then 1 else 0)
      + permits sel ip rest cs
  | _, _ => 0
  end.

(** One caller checks a name 30 times at the very end of a clock-aligned
    window and 30 times again 59 seconds into the next one; the origin
    answers 500 every time, so nothing is cached. *)
Definition burst (t : Z) : list Arrival :=
  repeat {| arrives := t; conditions := env_with 500; asks := "newname";
            caller := "203.0.113.7" |} 30.

Definition two_bursts_of_checks : list Arrival :=
  (burst (t0 + 39998) ++ burst (t0 + 98999))%list.

(** ** Statements of the specification that are compared with the program *)

Module Claimed.

(** "Origin returns 500: the failure is reported and the cache is not
    written; a subsequent identical call repeats the origin call." *)
Definition origin_error_repeats (env env' : CheckEnv) (username ip : string)
    (w : World) : Prop :=
  forall response : Response,
    cacheHolds (clock w + Z.of_N (get_lat env)) username w = None ->
    admits env ip w = true ->
    reply (origin_x env) = Answer response ->
    status response <> 200 -> status response <> 400 ->
    exists w' : World,
      checkUsername env username ip w = (Resolved (HytaleApiError (status response)), w')
      /\ redis w' = redis w
      /\ sent (snd (checkUsername env' username ip w')) = (sent w' ++ [ReqAvailability username])%list.

(** "If the cache holds an entry, return the cached verdict immediately.
    No session or rate-limit interaction occurs", read of a whole request:
    the limiter's state, the cookie jar and the list of requests sent are
    what they were. *)
Definition cache_hit_is_silent (env : HandlerEnv) (username : string)
    (address : option string) (w : World) : Prop :=
  forall v : string,
    (forall t : Z, clock w <= t -> cacheHolds t username w = Some v) ->
    exists w' : World,
      check_handler env username address w
        = (Resolved (Reply200 username (String.eqb v "1") true), w')
      /\ windows w' = windows w /\ blockedUntil w' = blockedUntil w
      /\ cookieJar w' = cookieJar w /\ sent w' = sent w.

(** "The count of permits granted to one identity within any rolling
    60-second window never exceeds 30." *)
Definition rolling_bound (calls : list (string * Z)) (w : World) : Prop :=
  forall (ip : string) (from : Z),
    granted (in_rolling from) ip calls (limits calls w) <= 30.


(** "A single in-flight login must be shared by all callers that observe
    an invalid session concurrently": however the callers of a process are
    scheduled, at most one login attempt is in flight. *)
Definition single_flight (p : Conc.Proc) : Prop :=
  forall schedule : list (nat * Exchange),
    (Conc.in_flight (Conc.tasks (Conc.run schedule p)) <= 1)%nat.

(** "The count of permits granted to one identity within any rolling
    60-second window never exceeds 30", of the checks a process serves. *)
Definition rolling_permits_bound (arrivals : list Arrival) (w : World) : Prop :=
  forall (ip : string) (from : Z),
    permits (in_rolling from) ip arrivals (checks arrivals w) <= 30.

End Claimed.

(** * Properties *)

(** ** The store *)

Lemma redis_get_set (now now' : Z) (key v : string) (ex : option Z)
    (db : gmap string Redis.Entry) :
  Redis.get now' key (Redis.set now key v ex db) =
  match ex with
  | None => Some v
  | Some s => if now' <=? now + s * 1000 then Some v else None
  end.
Proof.
  unfold Redis.get, Redis.set. rewrite lookup_insert_eq.
  destruct ex as [s|]; reflexivity.
Qed.

Lemma redis_get_set_other (now now' : Z) (key key' v : string) (ex : option Z)
    (db : gmap string Redis.Entry) :
  key ≠ key' ->
  Redis.get now' key' (Redis.set now key v ex db) = Redis.get now' key' db.
Proof.
  intros Hne. unfold Redis.get, Redis.set. by rewrite lookup_insert_ne.
Qed.

Lemma elapse_clock (d : N) (w : World) : clock (elapse d w) = clock w + Z.of_N d.
Proof. reflexivity. Qed.

(** What a lookup answers when it reaches the store [d] milliseconds after
    a write of the same user name, whatever the case of its letters. *)
Lemma get_after_set (w : World) (U U' : string) (available : bool) (l d : N) :
  Str.toLowerCase U = Str.toLowerCase U' ->
  fst (getCachedAvailability d U' (snd (setCachedAvailability l U available w))) =
  Resolved (if available
            then (if Z.of_N d <=? AVAILABLE_TTL * 1000 then Some true else None)
            else Some false).
Proof.
  intros Hlow.
  unfold getCachedAvailability, setCachedAvailability, await, redis_get.
  rewrite <- Hlow.
  destruct available; unfold redis_set; cbn [snd fst redis with_redis elapse with_clock clock];
    rewrite redis_get_set.
  - destruct (Z.leb_spec (clock w + Z.of_N l + Z.of_N d)
                         (clock w + Z.of_N l + AVAILABLE_TTL * 1000));
      destruct (Z.leb_spec (Z.of_N d) (AVAILABLE_TTL * 1000)); try lia; reflexivity.
  - reflexivity.
Qed.

(** C3: a positive verdict written for a user name is read back as
    [Some true], under any spelling with the same lowercase form, by every
    lookup less than 60 seconds later and as [None] by every lookup more
    than 60 seconds later; a negative verdict is read back as [Some false]
    by every later lookup. *)
Theorem cache_roundtrip (w : World) (U U' : string) (l : N) :
  Str.toLowerCase U = Str.toLowerCase U' ->
  let after_true := snd (setCachedAvailability l U true w) in
  let after_false := snd (setCachedAvailability l U false w) in
  (forall d : N, Z.of_N d < 60 * 1000 ->
     fst (getCachedAvailability d U' after_true) = Resolved (Some true)) /\
  (forall d : N, 60 * 1000 < Z.of_N d ->
     fst (getCachedAvailability d U' after_true) = Resolved None) /\
  (forall d : N,
     fst (getCachedAvailability d U' after_false) = Resolved (Some false)).
Proof.
  intros Hlow after_true after_false. subst after_true after_false.
  repeat split; intros d; try intros Hd; rewrite (get_after_set w U U' _ l d Hlow).
  - destruct (Z.leb_spec (Z.of_N d) (AVAILABLE_TTL * 1000)); [reflexivity|].
    unfold AVAILABLE_TTL in *. lia.
  - destruct (Z.leb_spec (Z.of_N d) (AVAILABLE_TTL * 1000)); [|reflexivity].
    unfold AVAILABLE_TTL in *. lia.
  - reflexivity.
Qed.

Lemma cache_roundtrip_witness :
  let w := fresh 1700000000000 in
  (forall d : N, Z.of_N d < 60 * 1000 ->
     fst (getCachedAvailability d "foo" (snd (setCachedAvailability 4 "Foo" true w)))
     = Resolved (Some true)) /\
  (forall d : N, 60 * 1000 < Z.of_N d ->
     fst (getCachedAvailability d "foo" (snd (setCachedAvailability 4 "Foo" true w)))
     = Resolved None) /\
  (forall d : N,
     fst (getCachedAvailability d "foo" (snd (setCachedAvailability 4 "Foo" false w)))
     = Resolved (Some false)).
Proof.
  exact (cache_roundtrip (fresh 1700000000000) "Foo" "foo" 4 eq_refl).
Defined.

Lemma redis_miss_later (t t' : Z) (key : string) (db : gmap string Redis.Entry) :
  t <= t' -> Redis.get t key db = None -> Redis.get t' key db = None.
Proof.
  unfold Redis.get, Redis.alive. intros Ht.
  destruct (db !! key) as [e|]; [|reflexivity].
  destruct (Redis.expireAt e) as [x|]; [|discriminate].
  destruct (Z.leb_spec t x); [discriminate|].
  destruct (Z.leb_spec t' x); [lia|reflexivity].
Qed.

(** ** The limiter *)

Lemma limit_resolves (identifier : string) (req : Ratelimit.LimitOptions) (lat : N)
    (w : World) :
  exists r, fst (Ratelimit.limit identifier req lat w) = Resolved r.
Proof.
  unfold Ratelimit.limit.
  destruct (Ratelimit.isBlocked _ _ _) as [[r|] b]; [eauto|].
  destruct (Ratelimit.slidingWindowScript _ _ _ _) as [rem ws]. eauto.
Qed.

(** The limiter touches its counters, its cache of blocked keys and the
    clock, and nothing else. *)
Lemma limit_frame (identifier : string) (req : Ratelimit.LimitOptions) (lat : N)
    (w w' : World) (c : Completion Ratelimit.RatelimitResponse) :
  Ratelimit.limit identifier req lat w = (c, w') ->
  redis w' = redis w /\ cookieJar w' = cookieJar w /\ sent w' = sent w
  /\ clock w <= clock w'.
Proof.
  unfold Ratelimit.limit.
  destruct (Ratelimit.isBlocked _ _ _) as [[r|] b].
  - intros [= <- <-]. cbn. repeat split; lia.
  - destruct (Ratelimit.slidingWindowScript _ _ _ _) as [rem ws].
    intros [= <- <-]. cbn. repeat split; lia.
Qed.

(** The limiter never reads the caller's address. *)
Lemma limit_ignores_ip (identifier : string) (a b : string) (lat : N) (w : World) :
  Ratelimit.limit identifier {| Ratelimit.ip := a |} lat w =
  Ratelimit.limit identifier {| Ratelimit.ip := b |} lat w.
Proof. reflexivity. Qed.

(** ** The orchestrator, case by case *)

Lemma checkUsername_hit (env : CheckEnv) (username ip : string) (w : World) (v : string) :
  cacheHolds (clock w + Z.of_N (get_lat env)) username w = Some v ->
  checkUsername env username ip w =
  (Resolved (Ok (String.eqb v "1") true), elapse (get_lat env) w).
Proof.
  unfold cacheHolds, cacheKey, checkUsername, getCachedAvailability, redis_get, await.
  cbn [elapse with_clock clock redis]. intros ->. reflexivity.
Qed.

Lemma checkUsername_miss (env : CheckEnv) (username ip : string) (w : World) :
  cacheHolds (clock w + Z.of_N (get_lat env)) username w = None ->
  checkUsername env username ip w =
  match Ratelimit.limit "check_username" {| Ratelimit.ip := ip |} (limit_lat env)
                        (elapse (get_lat env) w) with
  | (Resolved rateLimit, w2) =>
      if negb (Ratelimit.success rateLimit) then
        (Resolved (RateLimited (ceil_seconds (Ratelimit.reset rateLimit - clock w2))), w2)
      else
        match fetchWithCookies (ReqAvailability username) (origin_x env) w2 with
        | (Resolved response, w3) =>
            if negb (status response =? 200) && negb (status response =? 400)
            then (Resolved (HytaleApiError (status response)), w3)
            else
              (Resolved (Ok (status response =? 200) false),
               snd (setCachedAvailability (set_lat env) username
                                          (status response =? 200) w3))
        | (Rejected e, w3) => (Rejected e, w3)
        | (Exited, w3) => (Exited, w3)
        end
  | (Rejected e, w2) => (Rejected e, w2)
  | (Exited, w2) => (Exited, w2)
  end.
Proof.
  unfold cacheHolds, cacheKey. intros Hmiss.
  unfold checkUsername at 1, getCachedAvailability, redis_get, await at 1 2.
  cbn [elapse with_clock clock redis]. rewrite Hmiss.
  unfold resolve at 1. cbn beta iota.
  unfold await at 1.
  destruct (Ratelimit.limit _ _ _ _) as [[rl| |] w2]; try reflexivity.
  destruct (Ratelimit.success rl); cbn [negb].
  - unfold await at 1.
    destruct (fetchWithCookies _ _ w2) as [[r| |] w3]; try reflexivity.
    destruct (negb (status r =? 200) && negb (status r =? 400)); [reflexivity|].
    unfold await, setCachedAvailability, redis_set, resolve.
    destruct (status r =? 200); reflexivity.
  - reflexivity.
Qed.

Lemma ceil_seconds_spec (d : Z) :
  1000 * (ceil_seconds d - 1) < d <= 1000 * ceil_seconds d.
Proof.
  unfold ceil_seconds.
  pose proof (Z.div_mod (- d) 1000 ltac:(lia)) as Hdm.
  pose proof (Z.mod_pos_bound (- d) 1000 ltac:(lia)) as Hb.
  lia.
Qed.

(** C2: on a cache miss that the limiter lets through, a 200 of the origin
    is reported as available, a 400 as taken, and any other status as an
    upstream error carrying that status. *)
Theorem origin_status_mapping (env : CheckEnv) (username ip : string) (w w2 : World)
    (rateLimit : Ratelimit.RatelimitResponse) (response : Response) :
  cacheHolds (clock w + Z.of_N (get_lat env)) username w = None ->
  Ratelimit.limit "check_username" {| Ratelimit.ip := ip |} (limit_lat env)
                  (elapse (get_lat env) w) = (Resolved rateLimit, w2) ->
  Ratelimit.success rateLimit = true ->
  reply (origin_x env) = Answer response ->
  fst (checkUsername env username ip w) =
  Resolved (if status response =? 200 then Ok true false
            else if status response =? 400 then Ok false false
            else HytaleApiError (status response)).
Proof.
  intros Hmiss Hlimit Hok Hreply.
  rewrite (checkUsername_miss _ _ _ _ Hmiss), Hlimit, Hok. cbn [negb].
  unfold fetchWithCookies, receive. rewrite Hreply.
  destruct (Z.eqb_spec (status response) 200) as [E200|N200].
  - rewrite E200. reflexivity.
  - destruct (Z.eqb_spec (status response) 400) as [E400|N400]; reflexivity.
Qed.

Lemma origin_status_mapping_witness :
  fst (checkUsername (env_with 200) "newname" "203.0.113.7" (fresh t0))
    = Resolved (Ok true false)
  /\ fst (checkUsername (env_with 400) "takenname" "203.0.113.7" (fresh t0))
    = Resolved (Ok false false)
  /\ fst (checkUsername (env_with 500) "newname" "203.0.113.7" (fresh t0))
    = Resolved (HytaleApiError 500).
Proof.
  split; [|split].
  - eapply (origin_status_mapping (env_with 200) "newname" "203.0.113.7" (fresh t0)
                                     _ _ (plain 200));
      [reflexivity | vm_compute; reflexivity | reflexivity | reflexivity].
  - eapply (origin_status_mapping (env_with 400) "takenname" "203.0.113.7" (fresh t0)
                                     _ _ (plain 400));
      [reflexivity | vm_compute; reflexivity | reflexivity | reflexivity].
  - eapply (origin_status_mapping (env_with 500) "newname" "203.0.113.7" (fresh t0)
                                     _ _ (plain 500));
      [reflexivity | vm_compute; reflexivity | reflexivity | reflexivity].
Defined.

(** C5: on a cache miss that the limiter denies, the check answers
    rate-limited with the ceiling of the seconds from the current time to
    the reset time the limiter returned, and sends no request; the cache
    and the cookie jar are as they were. *)
Theorem rate_limited_short_circuit (env : CheckEnv) (username ip : string) (w w2 : World)
    (rateLimit : Ratelimit.RatelimitResponse) :
  cacheHolds (clock w + Z.of_N (get_lat env)) username w = None ->
  Ratelimit.limit "check_username" {| Ratelimit.ip := ip |} (limit_lat env)
                  (elapse (get_lat env) w) = (Resolved rateLimit, w2) ->
  Ratelimit.success rateLimit = false ->
  exists retryAfter : Z,
    checkUsername env username ip w = (Resolved (RateLimited retryAfter), w2)
    /\ 1000 * (retryAfter - 1) < Ratelimit.reset rateLimit - clock w2 <= 1000 * retryAfter
    /\ sent w2 = sent w /\ cookieJar w2 = cookieJar w /\ redis w2 = redis w.
Proof.
  intros Hmiss Hlimit Hdenied.
  exists (ceil_seconds (Ratelimit.reset rateLimit - clock w2)).
  rewrite (checkUsername_miss _ _ _ _ Hmiss), Hlimit, Hdenied. cbn [negb].
  split; [reflexivity|]. split; [apply ceil_seconds_spec|].
  destruct (limit_frame _ _ _ _ _ _ Hlimit) as (Hr & Hj & Hs & _).
  cbn in Hr, Hj, Hs. auto.
Qed.

Lemma rate_limited_short_circuit_witness :
  let w := after_checks 30 500 "newname" "203.0.113.7" (fresh t0) in
  exists retryAfter : Z,
    fst (checkUsername (env_with 200) "newname" "203.0.113.7" w)
      = Resolved (RateLimited retryAfter)
    /\ retryAfter = 40
    /\ sent (snd (checkUsername (env_with 200) "newname" "203.0.113.7" w)) = sent w.
Proof.
  intros w.
  edestruct (rate_limited_short_circuit (env_with 200) "newname" "203.0.113.7" w)
    as (r & Hres & Hceil & Hsent & _).
  - vm_compute; reflexivity.
  - vm_compute; reflexivity.
  - reflexivity.
  - exists r. rewrite Hres. cbn [fst snd]. split; [reflexivity|].
    split; [|exact Hsent]. cbn in Hceil. lia.
Defined.

Lemma admits_inv (env : CheckEnv) (ip : string) (w : World) :
  admits env ip w = true ->
  exists r w2,
    Ratelimit.limit "check_username" {| Ratelimit.ip := ip |} (limit_lat env)
                    (elapse (get_lat env) w) = (Resolved r, w2)
    /\ Ratelimit.success r = true.
Proof.
  unfold admits.
  destruct (Ratelimit.limit _ _ _ _) as [[r| |] w2]; cbn [fst]; try discriminate.
  eauto.
Qed.

Lemma setCachedAvailability_sent (lat : N) (username : string) (b : bool) (w : World) :
  sent (snd (setCachedAvailability lat username b w)) = sent w.
Proof. destruct b; reflexivity. Qed.

(** A check that reaches the origin sends exactly one request, for the
    name as the caller spelled it. *)
Lemma checkUsername_admitted_sent (env : CheckEnv) (username ip : string) (w : World) :
  cacheHolds (clock w + Z.of_N (get_lat env)) username w = None ->
  admits env ip w = true ->
  sent (snd (checkUsername env username ip w)) = (sent w ++ [ReqAvailability username])%list.
Proof.
  intros Hmiss Hadm. destruct (admits_inv _ _ _ Hadm) as (r & w2 & Hlimit & Hok).
  rewrite (checkUsername_miss _ _ _ _ Hmiss), Hlimit, Hok. cbn [negb].
  destruct (limit_frame _ _ _ _ _ _ Hlimit) as (_ & _ & Hs & _). cbn in Hs.
  unfold fetchWithCookies, receive, send.
  destruct (reply (origin_x env)) as [|resp]; cbn; [by rewrite Hs|].
  destruct (negb (status resp =? 200) && negb (status resp =? 400)); cbn.
  - by rewrite Hs.
  - rewrite setCachedAvailability_sent. cbn. by rewrite Hs.
Qed.

(** C8, as amended: when the origin answers a check with a status other
    than 200 and 400, the check reports an upstream error with that status
    and writes nothing to the cache, so the next check of the same name by
    the same caller misses the cache again; it repeats the origin call
    provided the limiter lets it through. *)
Theorem origin_error_not_cached (env env' : CheckEnv) (username ip : string) (w : World)
    (response : Response) :
  cacheHolds (clock w + Z.of_N (get_lat env)) username w = None ->
  admits env ip w = true ->
  reply (origin_x env) = Answer response ->
  status response <> 200 -> status response <> 400 ->
  exists w' : World,
    checkUsername env username ip w = (Resolved (HytaleApiError (status response)), w')
    /\ redis w' = redis w
    /\ cacheHolds (clock w' + Z.of_N (get_lat env')) username w' = None
    /\ (admits env' ip w' = true ->
        sent (snd (checkUsername env' username ip w'))
        = (sent w' ++ [ReqAvailability username])%list).
Proof.
  intros Hmiss Hadm Hreply H200 H400.
  destruct (admits_inv _ _ _ Hadm) as (r & w2 & Hlimit & Hok).
  rewrite (checkUsername_miss _ _ _ _ Hmiss), Hlimit, Hok. cbn [negb].
  destruct (limit_frame _ _ _ _ _ _ Hlimit) as (Hr & _ & _ & Hc). cbn in Hr, Hc.
  unfold fetchWithCookies, receive, send. rewrite Hreply.
  destruct (Z.eqb_spec (status response) 200) as [?|_]; [contradiction|].
  destruct (Z.eqb_spec (status response) 400) as [?|_]; [contradiction|].
  cbn [negb andb]. eexists. split; [reflexivity|].
  assert (Hmiss' :
    cacheHolds (clock w2 + Z.of_N (latency (origin_x env)) + Z.of_N (get_lat env'))
      username
      (with_cookieJar
         (Jar.setCookies (clock w2 + Z.of_N (latency (origin_x env)))
            (set_cookies response) (cookieJar w2))
         (elapse (latency (origin_x env))
            (with_sent (sent w2 ++ [ReqAvailability username])%list w2))) = None).
  { unfold cacheHolds in *. cbn [redis with_cookieJar elapse with_clock with_sent].
    rewrite Hr. eapply redis_miss_later; [|exact Hmiss]. lia. }
  split; [exact Hr|]. split; [exact Hmiss'|].
  intros Hadm'. apply checkUsername_admitted_sent; assumption.
Qed.

Lemma origin_error_not_cached_witness :
  exists w' : World,
    checkUsername (env_with 500) "newname" "203.0.113.7" (fresh t0)
      = (Resolved (HytaleApiError 500), w')
    /\ redis w' = redis (fresh t0)
    /\ sent (snd (checkUsername (env_with 500) "newname" "203.0.113.7" w'))
       = (sent w' ++ [ReqAvailability "newname"])%list.
Proof.
  destruct (origin_error_not_cached (env_with 500) (env_with 500) "newname" "203.0.113.7"
              (fresh t0) (plain 500))
    as (w' & Hres & Hredis & _ & Hagain);
    [reflexivity | reflexivity | reflexivity | discriminate | discriminate |].
  exists w'. split; [exact Hres|]. split; [exact Hredis|].
  apply Hagain. injection Hres as <-. vm_compute. reflexivity.
Defined.

(** C8, as the specification words it, fails: 29 checks of a name have
    each been answered 500; the 30th takes the last permit of the window
    and is answered 500 too; the identical check that follows is denied by
    the limiter and makes no origin call. *)
Lemma origin_error_repeats_counterexample :
  ~ Claimed.origin_error_repeats (env_with 500) (env_with 500) "newname" "203.0.113.7"
      (after_checks 29 500 "newname" "203.0.113.7" (fresh t0)).
Proof.
  intros H.
  destruct (H (plain 500)) as (w' & Hres & _ & Hsent);
    [vm_compute; reflexivity | vm_compute; reflexivity | reflexivity
    | discriminate | discriminate |].
  vm_compute in Hres. injection Hres as <-.
  vm_compute in Hsent. discriminate Hsent.
Qed.

(** ** Logging in *)

Lemma untouched_refl (w : World) : untouched_by_login w w.
Proof. repeat split. Qed.

Lemma untouched_trans (a b c : World) :
  untouched_by_login a b -> untouched_by_login b c -> untouched_by_login a c.
Proof.
  intros (H1 & H2 & H3 & H4) (K1 & K2 & K3 & K4).
  repeat split; congruence.
Qed.

Lemma fetch_untouched (req : Request) (x : Exchange) (w w' : World)
    (c : Completion Response) :
  fetchWithCookies req x w = (c, w') ->
  availability_requests [req] = [] -> untouched_by_login w w'.
Proof.
  unfold fetchWithCookies, receive, send.
  destruct (reply x) as [|r]; intros [= <- <-] Hreq; repeat split; cbn;
    unfold availability_requests in *; rewrite omap_app, Hreq; apply app_nil_r.
Qed.

Lemma login_untouched (env : LoginEnv) (w w' : World) (c : Completion unit) :
  login env w = (c, w') -> untouched_by_login w w'.
Proof.
  unfold login, await.
  destruct (fetchWithCookies ReqLoginBrowser (init_x env) w) as [[r1| |] w1] eqn:E1;
    pose proof (fetch_untouched _ _ _ _ _ E1 eq_refl) as F1;
    try (intros [= <- <-]; exact F1).
  unfold login_after_init, await, cookieJar_getCookies, throw.
  destruct (location r1 ≫= Str.flowMatch) as [flowId|]; [|intros [= <- <-]; exact F1].
  destruct (csrfCookie _) as [csrf0|]; [|intros [= <- <-]; exact F1].
  destruct (fetchWithCookies (ReqLoginSubmit _ _) (submit_x env) w1) as [[r2| |] w2] eqn:E2;
    pose proof (untouched_trans _ _ _ F1 (fetch_untouched _ _ _ _ _ E2 eq_refl)) as F2;
    try (intros [= <- <-]; exact F2).
  unfold login_after_submit, await, throw.
  destruct (location r2) as [l|]; [|intros [= <- <-]; exact F2].
  destruct (negb (status r2 =? 303) || negb (Str.includes "/settings" l));
    [intros [= <- <-]; exact F2|].
  destruct (fetchWithCookies (ReqFollow l) (follow_x env) w2) as [[r3| |] w3] eqn:E3;
    pose proof (untouched_trans _ _ _ F2 (fetch_untouched _ _ _ _ _ E3 eq_refl)) as F3;
    intros [= <- <-]; exact F3.
Qed.

Lemma ensureLoggedIn_untouched (env : LoginEnv) (w w' : World) (c : Completion unit) :
  ensureLoggedIn env w = (c, w') -> untouched_by_login w w'.
Proof.
  unfold ensureLoggedIn, try_catch, process_kill_SIGTERM, resolve.
  destruct (isSessionValid _ _); [intros [= <- <-]; apply untouched_refl|].
  destruct (login env w) as [[[]| |] w1] eqn:E; intros [= <- <-];
    exact (login_untouched _ _ _ _ E).
Qed.

Lemma ensureLoggedIn_valid (env : LoginEnv) (w : World) :
  isSessionValid (clock w) (cookieJar w) = true ->
  ensureLoggedIn env w = (Resolved tt, w).
Proof. unfold ensureLoggedIn. intros ->. reflexivity. Qed.

(** C1, as amended: when the cache holds an entry for the name, the
    orchestrator answers with the cached verdict and changes nothing but
    the clock: it consults neither the limiter, nor the session, nor the
    origin.  The request handler, though, runs [ensureLoggedIn] before the
    orchestrator, on cache hits as on misses: the session is checked first
    and renewed by a login when it is no longer valid; the limiter and the
    availability endpoint remain untouched, and a valid session means no
    interaction at all. *)
Theorem cache_hit_frame (env : HandlerEnv) (username : string)
    (address : option string) (w : World) (v : string) :
  (forall ip : string,
     cacheHolds (clock w + Z.of_N (get_lat (check_env env))) username w = Some v ->
     checkUsername (check_env env) username ip w
     = (Resolved (Ok (String.eqb v "1") true), elapse (get_lat (check_env env)) w))
  /\ (forall w0 : World,
        ensureLoggedIn (login_env env) w = (Resolved tt, w0) ->
        cacheHolds (clock w0 + Z.of_N (get_lat (check_env env))) username w0 = Some v ->
        check_handler env username address w
        = (Resolved (Reply200 username (String.eqb v "1") true),
           elapse (get_lat (check_env env)) w0)
        /\ windows w0 = windows w /\ blockedUntil w0 = blockedUntil w
        /\ availability_requests (sent w0) = availability_requests (sent w)
        /\ (isSessionValid (clock w) (cookieJar w) = true -> w0 = w)).
Proof.
  split.
  - intros ip Hhit. apply checkUsername_hit. exact Hhit.
  - intros w0 Hlogin Hhit.
    destruct (ensureLoggedIn_untouched _ _ _ _ Hlogin) as (_ & Hw & Hb & Ha).
    split; [|repeat split; try assumption].
    + unfold check_handler, await. rewrite Hlogin.
      rewrite (checkUsername_hit _ _ _ _ _ Hhit). reflexivity.
    + intros Hvalid. rewrite (ensureLoggedIn_valid _ _ Hvalid) in Hlogin.
      congruence.
Qed.

Lemma cache_hit_frame_witness :
  checkUsername (env_with 400) "TakenName" "203.0.113.7" near_expiry
  = (Resolved (Ok false true), elapse 1 near_expiry)
  /\ exists w0 : World,
       fst (check_handler renewing "TakenName" (Some "203.0.113.7") near_expiry)
       = Resolved (Reply200 "TakenName" false true)
       /\ ensureLoggedIn (login_env renewing) near_expiry = (Resolved tt, w0)
       /\ windows w0 = windows near_expiry.
Proof.
  destruct (cache_hit_frame renewing "TakenName" (Some "203.0.113.7") near_expiry "0")
    as [Hcheck Hhandler].
  split.
  - apply (Hcheck "203.0.113.7"). vm_compute; reflexivity.
  - eexists.
    edestruct Hhandler as (Hres & Hw & _); [vm_compute; reflexivity | | ].
    + vm_compute; reflexivity.
    + rewrite Hres. split; [reflexivity|]. split; [reflexivity | exact Hw].
Defined.

(** C1, as the specification words it, fails for a request as a whole:
    four minutes before the session cookie expires, a request for a name
    whose verdict is cached is answered from the cache, and on the way the
    handler has logged in again: three requests were sent and the session
    cookie was replaced. *)
Lemma cache_hit_is_silent_counterexample :
  ~ Claimed.cache_hit_is_silent renewing "TakenName" (Some "203.0.113.7") near_expiry.
Proof.
  intros H.
  destruct (H "0") as (w' & Hres & _ & _ & _ & Hsent).
  - intros t _. unfold cacheHolds, Redis.get. vm_compute. reflexivity.
  - vm_compute in Hres. injection Hres as <-.
    vm_compute in Hsent. discriminate Hsent.
Qed.

(** ** The sliding window *)

Lemma weighted_nonneg (now inPrevious : Z) :
  0 <= inPrevious -> 0 <= Ratelimit.weighted now inPrevious.
Proof.
  intros Hp. unfold Ratelimit.weighted, Ratelimit.windowSize.
  pose proof (Z.mod_pos_bound now (60 * 1000) ltac:(lia)).
  apply Z.div_pos; nia.
Qed.

Lemma counters_bounded_empty : counters_bounded ∅.
Proof.
  intros k. unfold Ratelimit.counter, Ratelimit.tokens.
  rewrite lookup_empty. cbn. lia.
Qed.

(** What the script does: it refuses and counts nothing, or it grants and
    adds one to the counter of the current window, which stays within the
    number of tokens. *)
Lemma script_cases (cur prev : string * Z) (now : Z) (ws : gmap (string * Z) Z) :
  counters_bounded ws ->
  Ratelimit.slidingWindowScript cur prev now ws = (-1, ws)
  \/ (exists rem : Z,
        0 <= rem
        /\ Ratelimit.counter cur ws + 1 <= Ratelimit.tokens
        /\ Ratelimit.slidingWindowScript cur prev now ws
           = (rem, <[cur := Ratelimit.counter cur ws + 1]> ws)).
Proof.
  intros Hb. unfold Ratelimit.slidingWindowScript.
  pose proof (weighted_nonneg now _ (proj1 (Hb prev))) as Hw.
  pose proof (Hb cur) as Hc.
  destruct (Z.leb_spec Ratelimit.tokens
              (Ratelimit.weighted now (Ratelimit.counter prev ws) + Ratelimit.counter cur ws)).
  - left. reflexivity.
  - right. eexists. split; [|split; [|reflexivity]]; lia.
Qed.

Lemma counter_insert (k k' : string * Z) (n : Z) (ws : gmap (string * Z) Z) :
  Ratelimit.counter k' (<[k := n]> ws) = if decide (k = k') then n else Ratelimit.counter k' ws.
Proof.
  unfold Ratelimit.counter. rewrite lookup_insert.
  destruct (decide (k = k')); reflexivity.
Qed.

(** One call of the limiter: either nothing is counted and the call is
    denied, or the call is granted and the counter of the key's current
    window goes up by one, within bounds. *)
Lemma limit_cases (identifier : string) (req : Ratelimit.LimitOptions) (lat : N)
    (w : World) :
  counters_bounded (windows w) ->
  exists (r : Ratelimit.RatelimitResponse) (w' : World),
    Ratelimit.limit identifier req lat w = (Resolved r, w')
    /\ ((Ratelimit.success r = false /\ windows w' = windows w)
        \/ (Ratelimit.success r = true
            /\ Ratelimit.counter (Ratelimit.getKey identifier,
                                  clock w / Ratelimit.windowSize) (windows w) + 1
               <= Ratelimit.tokens
            /\ windows w'
               = <[(Ratelimit.getKey identifier, clock w / Ratelimit.windowSize)
                   := Ratelimit.counter (Ratelimit.getKey identifier,
                                         clock w / Ratelimit.windowSize) (windows w) + 1]>
                   (windows w))).
Proof.
  intros Hb. unfold Ratelimit.limit.
  destruct (Ratelimit.isBlocked _ _ _) as [[r|] b].
  - eexists _, _. split; [reflexivity|]. left. split; reflexivity.
  - destruct (script_cases
                (Ratelimit.getKey identifier, clock w / Ratelimit.windowSize)
                (Ratelimit.getKey identifier, clock w / Ratelimit.windowSize - 1)
                (clock w) (windows w) Hb) as [E | (rem & Hrem & Hle & E)]; rewrite E.
    + eexists _, _. split; [reflexivity|]. left. split; reflexivity.
    + eexists _, _. split; [reflexivity|]. right. cbn.
      split; [|split; [exact Hle | reflexivity]].
      destruct (Z.leb_spec 0 rem); [reflexivity | lia].
Qed.

Lemma limit_keeps_bounds (identifier : string) (req : Ratelimit.LimitOptions) (lat : N)
    (w : World) :
  counters_bounded (windows w) ->
  counters_bounded (windows (snd (Ratelimit.limit identifier req lat w))).
Proof.
  intros Hb.
  destruct (limit_cases identifier req lat w Hb) as (r & w' & E & [[_ Hw] | (_ & Hle & Hw)]);
    rewrite E; cbn [snd]; rewrite Hw; [exact Hb|].
  intros k. rewrite counter_insert. destruct (decide (_ = k)); [|apply Hb].
  pose proof (Hb (Ratelimit.getKey identifier, clock w / Ratelimit.windowSize)). lia.
Qed.

(** The permits granted in one clock-aligned window, together with what
    its counter already held, stay within the number of tokens. *)
Lemma granted_aligned_bound (calls : list (string * Z)) (w : World) (ip : string) (k : Z) :
  counters_bounded (windows w) ->
  granted (in_aligned k) ip calls (limits calls w)
  + Ratelimit.counter (Ratelimit.getKey "check_username", k) (windows w)
  <= Ratelimit.tokens.
Proof.
  revert w. induction calls as [|[a now] rest IH]; intros w Hb.
  - cbn. apply Hb.
  - cbn [limits].
    pose proof (limit_keeps_bounds "check_username" {| Ratelimit.ip := a |} 0
                  (with_clock now w) Hb) as Hb'.
    destruct (limit_cases "check_username" {| Ratelimit.ip := a |} 0 (with_clock now w) Hb)
      as (r & w' & E & Hcase).
    rewrite E in Hb' |- *. cbn [snd] in Hb'. cbn [granted].
    specialize (IH w' Hb').
    destruct Hcase as [[Hno Hw] | (Hyes & Hle & Hw)].
    + rewrite Hno. cbn [andb]. rewrite Hw in IH. cbn [windows with_clock] in IH. lia.
    + rewrite Hyes. cbn [andb]. rewrite Hw, counter_insert in IH.
      cbn [windows with_clock clock] in IH, Hle.
      destruct (in_aligned k now) eqn:Hk; unfold in_aligned in Hk.
      * apply Z.eqb_eq in Hk. subst k. destruct (decide _) as [_|Hne]; [|congruence].
        destruct (String.eqb a ip); cbn [andb]; lia.
      * apply Z.eqb_neq in Hk. destruct (decide _) as [Heq|_]; [congruence|].
        rewrite andb_false_r. lia.
Qed.

(** On the limiter alone: from a fresh process, the permits it grants to
    one caller in a clock-aligned window never exceed 30. *)
Lemma permits_per_window (calls : list (string * Z)) (t : Z) (ip : string) (k : Z) :
  granted (in_aligned k) ip calls (limits calls (fresh t)) <= 30.
Proof.
  pose proof (granted_aligned_bound calls (fresh t) ip k counters_bounded_empty) as H.
  pose proof (counters_bounded_empty (Ratelimit.getKey "check_username", k)) as H0.
  cbn [windows fresh] in H. unfold Ratelimit.tokens in *. lia.
Qed.

(** On the limiter alone, the bound does not hold of rolling windows: 30
    permits in the last millisecond of one aligned window and 30 more 59
    seconds into the next make 60 permits for one caller within 59.001
    seconds. *)
Lemma rolling_bound_counterexample :
  ~ Claimed.rolling_bound two_bursts (fresh t0).
Proof.
  intros H. specialize (H "203.0.113.7" (t0 + 39999)).
  apply Z.leb_le in H. vm_compute in H. discriminate H.
Qed.

(** The counter is shared: once one caller has used the window up, a
    caller from another address is denied. *)
Lemma budget_is_shared :
  last (limits crowded_out (fresh t0)) = Some false
  /\ granted (fun _ => true) "203.0.113.7" crowded_out (limits crowded_out (fresh t0)) = 30
  /\ granted (fun _ => true) "198.51.100.22" crowded_out (limits crowded_out (fresh t0)) = 0.
Proof. vm_compute. repeat split. Qed.

(** ** The session *)










(** ** Failing logins *)

Lemma after_init_answer (env : LoginEnv) (w : World) (r1 : Response) :
  reply (init_x env) = Answer r1 ->
  fetchWithCookies ReqLoginBrowser (init_x env) w = (Resolved r1, after_init env w).
Proof.
  intros H. unfold after_init, fetchWithCookies, receive. rewrite H. reflexivity.
Qed.

Lemma login_fails (env : LoginEnv) (w : World) (e : Error) :
  LoginFailure env w e -> fst (login env w) = Rejected e.
Proof.
  intros H.
  destruct H as [r1 Hinit Hflow | r1 flowId Hinit Hflow Hcsrf
                | r1 r2 flowId c Hinit Hflow Hcsrf Hsubmit Hst
                | r1 r2 flowId c Hinit Hflow Hcsrf Hsubmit Hst Hloc];
    unfold login, await; rewrite (after_init_answer _ _ _ Hinit);
    unfold login_after_init, await, cookieJar_getCookies; rewrite Hflow.
  - reflexivity.
  - rewrite Hcsrf. reflexivity.
  - rewrite Hcsrf. unfold fetchWithCookies, receive. rewrite Hsubmit.
    unfold login_after_submit.
    destruct (location r2) as [l|]; [|reflexivity].
    destruct (Z.eqb_spec (status r2) 303) as [?|_]; [contradiction|]. reflexivity.
  - rewrite Hcsrf. unfold fetchWithCookies, receive. rewrite Hsubmit.
    unfold login_after_submit.
    destruct (location r2) as [l|]; [|reflexivity].
    rewrite (Hloc l eq_refl), orb_true_r. reflexivity.
Qed.

Lemma ensureLoggedIn_never_rejects (env : LoginEnv) (w : World) (e : Error) :
  fst (ensureLoggedIn env w) <> Rejected e.
Proof.
  unfold ensureLoggedIn, try_catch, process_kill_SIGTERM, resolve.
  destruct (isSessionValid _ _); [discriminate|].
  destruct (login env w) as [[[]| |] w1]; discriminate.
Qed.

(** C6: when a login is needed and fails for want of a flow id, for want
    of a CSRF cookie, because the credentials are not answered with a 303,
    or because that redirect does not lead to the settings page, [login]
    throws, [ensureLoggedIn] catches the error and sends the process
    SIGTERM, which ends it; and in no case at all does [ensureLoggedIn]
    settle with an error. *)
Theorem login_failure_is_fatal (env : LoginEnv) (w : World) (e : Error) :
  isSessionValid (clock w) (cookieJar w) = false ->
  LoginFailure env w e ->
  fst (login env w) = Rejected e
  /\ fst (ensureLoggedIn env w) = Exited
  /\ (forall (env' : LoginEnv) (w' : World) (e' : Error),
        fst (ensureLoggedIn env' w') <> Rejected e').
Proof.
  intros Hinvalid Hfail. pose proof (login_fails _ _ _ Hfail) as Hlogin.
  split; [exact Hlogin|]. split; [|apply ensureLoggedIn_never_rejects].
  unfold ensureLoggedIn, try_catch, process_kill_SIGTERM. rewrite Hinvalid.
  destruct (login env w) as [[[]| |] w1]; cbn [fst] in *; congruence.
Qed.

Lemma login_failure_is_fatal_witness :
  fst (ensureLoggedIn login_without_flow (fresh t0)) = Exited
  /\ fst (ensureLoggedIn login_without_csrf (fresh t0)) = Exited
  /\ fst (ensureLoggedIn login_rejected (fresh t0)) = Exited
  /\ fst (ensureLoggedIn login_misdirected (fresh t0)) = Exited.
Proof.
  split; [|split; [|split]].
  - refine (proj1 (proj2 (login_failure_is_fatal login_without_flow (fresh t0)
                            FlowIdMissing eq_refl _))).
    eapply NoFlowId; reflexivity.
  - refine (proj1 (proj2 (login_failure_is_fatal login_without_csrf (fresh t0)
                            CsrfMissing eq_refl _))).
    eapply NoCsrfCookie; reflexivity.
  - refine (proj1 (proj2 (login_failure_is_fatal login_rejected (fresh t0)
                            _ eq_refl _))).
    eapply CredentialsRejected; try reflexivity. discriminate.
  - refine (proj1 (proj2 (login_failure_is_fatal login_misdirected (fresh t0)
                            _ eq_refl _))).
    eapply WrongRedirect; try reflexivity.
    intros l [= <-]. reflexivity.
Defined.

(** ** Callers running side by side *)

(** The machine of a caller is [ensureLoggedIn] cut at its awaits: run
    alone, it ends where [ensureLoggedIn] ends. *)
Lemma run_alone_ensureLoggedIn (env : LoginEnv) (w : World) :
  exists c : Completion unit,
    Conc.completion (fst (Conc.run_alone env w)) = Some c
    /\ ensureLoggedIn env w = (c, snd (Conc.run_alone env w)).
Proof.
  unfold Conc.run_alone, ensureLoggedIn, try_catch, process_kill_SIGTERM.
  cbn [Conc.step_task]. unfold Conc.start.
  destruct (isSessionValid (clock w) (cookieJar w)).
  { cbn. eauto. }
  cbn [Conc.step_task]. unfold Conc.on_init, login, await, fetchWithCookies at 1.
  destruct (receive (init_x env) (send ReqLoginBrowser w)) as [[r1| |] w1];
    [|cbn; eauto|cbn; eauto].
  unfold login_after_init, await, cookieJar_getCookies, throw.
  destruct (location r1 ≫= Str.flowMatch) as [flowId|]; [|cbn; eauto].
  destruct (csrfCookie _) as [c0|]; [|cbn; eauto].
  cbn [Conc.step_task]. unfold Conc.on_submit, fetchWithCookies at 1.
  destruct (receive (submit_x env) (send _ w1)) as [[r2| |] w2];
    [|cbn; eauto|cbn; eauto].
  unfold login_after_submit, await, throw.
  destruct (location r2) as [l|]; [|cbn; eauto].
  destruct (negb (status r2 =? 303) || negb (Str.includes "/settings" l));
    [cbn; eauto|].
  cbn [Conc.step_task]. unfold Conc.on_follow, fetchWithCookies.
  destruct (receive (follow_x env) (send _ w2)) as [[r3| |] w3]; cbn; eauto.
Qed.

Lemma in_flight_insert (ts : list Conc.Task) (i : nat) (t t' : Conc.Task) :
  ts !! i = Some t ->
  (Conc.in_flight (<[i := t']> ts) + (if Conc.awaiting t then 1 else 0)
   = Conc.in_flight ts + (if Conc.awaiting t' then 1 else 0))%nat.
Proof.
  unfold Conc.in_flight. revert i.
  induction ts as [|a ts IH]; intros [|i] H; try discriminate.
  - injection H as ->. cbn. destruct (Conc.awaiting t), (Conc.awaiting t'); cbn; lia.
  - cbn in H. specialize (IH i H). cbn. unfold insert in IH |- *.
    destruct (Conc.awaiting a); cbn [Datatypes.length]; lia.
Qed.

(** C9, as amended: nothing keeps [ensureLoggedIn] from running alongside
    itself.  A caller that finds the session invalid when it gets to run
    starts a login attempt of its own, however many attempts are already
    in flight: one more attempt is in flight and one more opening request
    has been sent.  A caller that finds the session valid returns without
    a request. *)
Theorem every_caller_logs_in (p : Conc.Proc) (i : nat) (x : Exchange) :
  Conc.dead p = false ->
  Conc.tasks p !! i = Some Conc.Called ->
  (isSessionValid (clock (Conc.world p)) (cookieJar (Conc.world p)) = false ->
     Conc.tasks (Conc.step i x p) = <[i := Conc.AwaitingInit]> (Conc.tasks p)
     /\ Conc.in_flight (Conc.tasks (Conc.step i x p)) = S (Conc.in_flight (Conc.tasks p))
     /\ sent (Conc.world (Conc.step i x p))
        = (sent (Conc.world p) ++ [ReqLoginBrowser])%list
     /\ Conc.logins_started (Conc.world (Conc.step i x p))
        = S (Conc.logins_started (Conc.world p)))
  /\ (isSessionValid (clock (Conc.world p)) (cookieJar (Conc.world p)) = true ->
      Conc.tasks (Conc.step i x p) = <[i := Conc.Returned]> (Conc.tasks p)
      /\ Conc.world (Conc.step i x p) = Conc.world p).
Proof.
  intros Halive Hcalled.
  unfold Conc.step. rewrite Halive, Hcalled. cbn [Conc.step_task]. unfold Conc.start.
  split; intros ->; cbn [Conc.tasks Conc.world].
  - split; [reflexivity|]. split; [|split].
    + pose proof (in_flight_insert _ _ _ Conc.AwaitingInit Hcalled) as H. cbn in H. lia.
    + reflexivity.
    + unfold Conc.logins_started, send. cbn [sent with_sent].
      rewrite List.filter_app, List.length_app. cbn. lia.
  - split; reflexivity.
Qed.

Lemma every_caller_logs_in_witness :
  let x := init_x (good_login (t0 + hour)) in
  let p := Conc.step 0 x two_callers in
  Conc.in_flight (Conc.tasks p) = 1%nat
  /\ Conc.in_flight (Conc.tasks (Conc.step 1 x p)) = 2%nat
  /\ Conc.logins_started (Conc.world (Conc.step 1 x p)) = 2%nat
  /\ Conc.tasks (Conc.step 0 x one_caller) = [Conc.Returned]
  /\ Conc.world (Conc.step 0 x one_caller) = Conc.world one_caller.
Proof.
  intros x p.
  destruct (every_caller_logs_in p 1 x eq_refl eq_refl) as [Hinvalid _].
  destruct (Hinvalid eq_refl) as (_ & Hflight & _ & Hstarted).
  destruct (every_caller_logs_in one_caller 0 x eq_refl eq_refl) as [_ Hvalid].
  destruct (Hvalid eq_refl) as (Htasks & Hworld).
  split; [reflexivity|]. split; [exact Hflight|]. split; [exact Hstarted|].
  split; [exact Htasks | exact Hworld].
Defined.

(** C9, as the specification words it, fails: two requests arrive while
    the session is invalid; the second runs while the first one's login is
    waiting for its first reply, and starts a login of its own. *)
Lemma single_flight_counterexample : ~ Claimed.single_flight two_callers.
Proof.
  intros H. specialize (H both_start). vm_compute in H.
  apply Nat.leb_le in H. discriminate H.
Qed.

(** * Further properties of the program *)

(** ** The orchestrator and the cache together *)

Lemma admits_false_inv (env : CheckEnv) (ip : string) (w : World) :
  admits env ip w = false ->
  exists r w2,
    Ratelimit.limit "check_username" {| Ratelimit.ip := ip |} (limit_lat env)
                    (elapse (get_lat env) w) = (Resolved r, w2)
    /\ Ratelimit.success r = false.
Proof.
  unfold admits.
  destruct (limit_resolves "check_username" {| Ratelimit.ip := ip |} (limit_lat env)
              (elapse (get_lat env) w)) as [r Hr].
  destruct (Ratelimit.limit _ _ _ _) as [c w2]. cbn [fst] in *. subst c.
  intros H. eauto.
Qed.

(** X1: a check sends a request exactly when it misses the cache and the
    limiter lets it through, and then it sends one request only: the
    availability query for the name as the caller spelled it. *)
Theorem checkUsername_requests (env : CheckEnv) (username ip : string) (w : World) :
  sent (snd (checkUsername env username ip w))
  = if misses env username w && admits env ip w
    then (sent w ++ [ReqAvailability username])%list
    else sent w.
Proof.
  unfold misses.
  destruct (cacheHolds _ username w) as [v|] eqn:Hc.
  - rewrite (checkUsername_hit _ _ _ _ _ Hc). reflexivity.
  - cbn [andb]. destruct (admits env ip w) eqn:Ha.
    + apply checkUsername_admitted_sent; assumption.
    + destruct (admits_false_inv _ _ _ Ha) as (r & w2 & Hlimit & Hno).
      rewrite (checkUsername_miss _ _ _ _ Hc), Hlimit, Hno. cbn [negb snd].
      destruct (limit_frame _ _ _ _ _ _ Hlimit) as (_ & _ & Hs & _). exact Hs.
Qed.

(** X2: cache-aside, end to end.  After a check that got a 200 or a 400
    from the origin, a check of the same name under any spelling is
    answered from the cache with the same verdict and changes nothing but
    the clock: for ever after a 400, and when it reaches the store less
    than 60 seconds later after a 200. *)
Theorem cache_aside (env env' : CheckEnv) (username username' ip ip' : string)
    (w : World) (response : Response) :
  cacheHolds (clock w + Z.of_N (get_lat env)) username w = None ->
  admits env ip w = true ->
  reply (origin_x env) = Answer response ->
  status response = 200 \/ status response = 400 ->
  Str.toLowerCase username' = Str.toLowerCase username ->
  (status response = 200 -> Z.of_N (get_lat env') < 60 * 1000) ->
  exists w' : World,
    checkUsername env username ip w
      = (Resolved (Ok (status response =? 200) false), w')
    /\ checkUsername env' username' ip' w'
      = (Resolved (Ok (status response =? 200) true), elapse (get_lat env') w').
Proof.
  intros Hmiss Hadm Hreply Hst Hlow Hsoon.
  destruct (admits_inv _ _ _ Hadm) as (r & w2 & Hlimit & Hok).
  rewrite (checkUsername_miss _ _ _ _ Hmiss), Hlimit, Hok. cbn [negb].
  unfold fetchWithCookies, receive. rewrite Hreply.
  assert (negb (status response =? 200) && negb (status response =? 400) = false) as ->.
  { destruct Hst as [-> | ->]; reflexivity. }
  eexists. split; [reflexivity|].
  match goal with |- checkUsername _ _ _ ?w' = _ => set (w1 := w') end.
  assert (Hhit : cacheHolds (clock w1 + Z.of_N (get_lat env')) username' w1
                 = Some (if status response =? 200 then "1" else "0")).
  { unfold cacheHolds, cacheKey. rewrite Hlow.
    subst w1. unfold setCachedAvailability.
    destruct (Z.eqb_spec (status response) 200) as [E|_];
      unfold redis_set; cbn [snd redis with_redis clock elapse with_clock];
      rewrite redis_get_set; [|reflexivity].
    specialize (Hsoon E). unfold AVAILABLE_TTL.
    match goal with |- (if ?a <=? ?b then _ else _) = _ =>
      destruct (Z.leb_spec a b) as [_|Hgt]; [reflexivity | exfalso; lia] end. }
  rewrite (checkUsername_hit _ _ _ _ _ Hhit).
  destruct (status response =? 200); reflexivity.
Qed.

Lemma cache_aside_witness :
  exists w' : World,
    checkUsername (env_with 200) "NewName" "203.0.113.7" (fresh t0)
      = (Resolved (Ok true false), w')
    /\ checkUsername (env_with 500) "newname" "198.51.100.22" w'
      = (Resolved (Ok true true), elapse 1 w').
Proof.
  destruct (cache_aside (env_with 200) (env_with 500) "NewName" "newname"
              "203.0.113.7" "198.51.100.22" (fresh t0) (plain 200))
    as (w' & H1 & H2);
    [reflexivity | reflexivity | reflexivity | left; reflexivity | reflexivity
    | intros _; reflexivity |].
  exists w'. split; [exact H1 | exact H2].
Defined.

Lemma append_inj_l (p a b : string) : (p ++ a)%string = (p ++ b)%string -> a = b.
Proof. induction p as [|c p IH]; cbn; [auto|]. intros [= H]. auto. Qed.

(** X3: the cache entries of two names of ASCII characters with different
    lowercase forms do not touch: writing a verdict for one leaves every
    later lookup of the other as it would have been. *)
Theorem cache_isolation (U V : string) (available : bool) (l d : N) (w : World) :
  asciiOnly U -> asciiOnly V ->
  Str.toLowerCase U <> Str.toLowerCase V ->
  fst (getCachedAvailability d V (snd (setCachedAvailability l U available w)))
  = fst (getCachedAvailability (l + d) V w).
Proof.
  intros _ _ Hne.
  assert (CACHE_PREFIX ++ Str.toLowerCase U <> CACHE_PREFIX ++ Str.toLowerCase V)%string
    as Hkey by (intros H; apply Hne, (append_inj_l _ _ _ H)).
  unfold getCachedAvailability, setCachedAvailability, await, redis_get.
  destruct available; unfold redis_set;
    cbn [snd fst redis with_redis elapse with_clock clock];
    rewrite (redis_get_set_other _ _ _ _ _ _ _ Hkey), N2Z.inj_add, Z.add_assoc;
    destruct (Redis.get _ _ _); reflexivity.
Qed.

Lemma cache_isolation_witness :
  fst (getCachedAvailability 5 "alice"
         (snd (setCachedAvailability 3 "Bob" true (fresh t0))))
  = fst (getCachedAvailability (3 + 5) "alice" (fresh t0)).
Proof.
  apply (cache_isolation "Bob" "alice" true 3 5 (fresh t0)).
  - intros c Hc. cbn in Hc. repeat (destruct Hc as [<-|Hc]; [apply Nat.ltb_lt; reflexivity|]). destruct Hc.
  - intros c Hc. cbn in Hc. repeat (destruct Hc as [<-|Hc]; [apply Nat.ltb_lt; reflexivity|]). destruct Hc.
  - discriminate.
Defined.

(** X4: the last verdict written for a name is the one read, with its own
    expiry: a taken verdict written over an available one stays for ever,
    an available verdict written over a taken one is gone after 60
    seconds. *)
Theorem last_write_wins (U U' V : string) (first : bool) (l1 l2 : N) (w : World) :
  Str.toLowerCase U = Str.toLowerCase V ->
  Str.toLowerCase U' = Str.toLowerCase V ->
  let taken_last :=
    snd (setCachedAvailability l2 U' false (snd (setCachedAvailability l1 U first w))) in
  let available_last :=
    snd (setCachedAvailability l2 U' true (snd (setCachedAvailability l1 U first w))) in
  (forall d : N, fst (getCachedAvailability d V taken_last) = Resolved (Some false))
  /\ (forall d : N, Z.of_N d < 60 * 1000 ->
        fst (getCachedAvailability d V available_last) = Resolved (Some true))
  /\ (forall d : N, 60 * 1000 < Z.of_N d ->
        fst (getCachedAvailability d V available_last) = Resolved None).
Proof.
  intros _ HU' taken_last available_last. subst taken_last available_last.
  split; [|split]; intros d; try intros Hd; rewrite (get_after_set _ U' V _ l2 d HU').
  - reflexivity.
  - unfold AVAILABLE_TTL. destruct (Z.leb_spec (Z.of_N d) (60 * 1000)); [reflexivity|lia].
  - unfold AVAILABLE_TTL. destruct (Z.leb_spec (Z.of_N d) (60 * 1000)); [lia|reflexivity].
Qed.

Lemma last_write_wins_witness :
  fst (getCachedAvailability 86400000 "foo"
         (snd (setCachedAvailability 2 "FOO" false
                 (snd (setCachedAvailability 1 "Foo" true (fresh t0))))))
  = Resolved (Some false)
  /\ fst (getCachedAvailability 60001 "foo"
            (snd (setCachedAvailability 2 "FOO" true
                    (snd (setCachedAvailability 1 "Foo" false (fresh t0))))))
     = Resolved None.
Proof.
  split.
  - exact (proj1 (last_write_wins "Foo" "FOO" "foo" true 1 2 (fresh t0) eq_refl eq_refl)
             86400000%N).
  - apply (proj2 (proj2 (last_write_wins "Foo" "FOO" "foo" false 1 2 (fresh t0)
                           eq_refl eq_refl))).
    reflexivity.
Defined.

(** ** The orchestrator and the limiter together *)

Lemma admits_success (env : CheckEnv) (ip : string) (w w2 : World)
    (r : Ratelimit.RatelimitResponse) :
  Ratelimit.limit "check_username" {| Ratelimit.ip := ip |} (limit_lat env)
                  (elapse (get_lat env) w) = (Resolved r, w2) ->
  admits env ip w = Ratelimit.success r.
Proof. unfold admits. intros ->. reflexivity. Qed.

(** A request and a cache write leave the limiter's state alone and do
    not turn the clock back. *)
Lemma fetch_limiter_frame (req : Request) (x : Exchange) (w w' : World)
    (c : Completion Response) :
  fetchWithCookies req x w = (c, w') ->
  windows w' = windows w /\ blockedUntil w' = blockedUntil w /\ clock w <= clock w'.
Proof.
  unfold fetchWithCookies, receive, send.
  destruct (reply x); intros [= <- <-]; cbn; repeat split; lia.
Qed.

Lemma set_limiter_frame (lat : N) (username : string) (b : bool) (w : World) :
  windows (snd (setCachedAvailability lat username b w)) = windows w
  /\ blockedUntil (snd (setCachedAvailability lat username b w)) = blockedUntil w
  /\ clock w <= clock (snd (setCachedAvailability lat username b w)).
Proof. destruct b; cbn; repeat split; lia. Qed.

(** X5: a check that misses the cache and is let through raises the
    counter of the current window by one, whatever the origin answers
    afterwards, be it an error status or no answer at all; any other check
    leaves every counter as it was. *)
Theorem permit_not_refunded (env : CheckEnv) (username ip : string) (w : World) :
  counters_bounded (windows w) ->
  windows (snd (checkUsername env username ip w))
  = if misses env username w && admits env ip w
    then <[countedUnder env w
           := Ratelimit.counter (countedUnder env w) (windows w) + 1]> (windows w)
    else windows w.
Proof.
  intros Hb. unfold misses.
  destruct (cacheHolds _ username w) as [v|] eqn:Hc.
  - rewrite (checkUsername_hit _ _ _ _ _ Hc). reflexivity.
  - cbn [andb]. rewrite (checkUsername_miss _ _ _ _ Hc).
    destruct (limit_cases "check_username" {| Ratelimit.ip := ip |} (limit_lat env)
                (elapse (get_lat env) w) Hb) as (r & w2 & E & Hcase).
    rewrite (admits_success _ _ _ _ _ E), E.
    destruct Hcase as [[Hno Hw] | (Hyes & _ & Hw)].
    + rewrite Hno. cbn [negb snd]. exact Hw.
    + rewrite Hyes. cbn [negb].
      destruct (fetchWithCookies _ _ w2) as [[resp| |] w3] eqn:F;
        destruct (fetch_limiter_frame _ _ _ _ _ F) as (H3 & _ & _);
        cbn [snd]; try (rewrite H3; exact Hw).
      destruct (negb (status resp =? 200) && negb (status resp =? 400)); cbn [snd].
      * rewrite H3. exact Hw.
      * rewrite (proj1 (set_limiter_frame _ _ _ _)), H3. exact Hw.
Qed.

Lemma permit_not_refunded_witness :
  Ratelimit.counter (countedUnder (env_with 500) (fresh t0))
    (windows (snd (checkUsername (env_with 500) "newname" "203.0.113.7" (fresh t0))))
  = 1.
Proof.
  rewrite (permit_not_refunded (env_with 500) "newname" "203.0.113.7" (fresh t0)
             counters_bounded_empty).
  reflexivity.
Defined.

Lemma blocked_sane_later (w w' : World) :
  blockedUntil w' = blockedUntil w -> clock w <= clock w' ->
  blocked_sane w -> blocked_sane w'.
Proof.
  intros Hb Hc Hs key r H. rewrite Hb in H. specialize (Hs key r H). lia.
Qed.

Lemma window_end_near (now : Z) :
  now < (now / Ratelimit.windowSize + 1) * Ratelimit.windowSize
      <= now + Ratelimit.windowSize.
Proof.
  unfold Ratelimit.windowSize.
  pose proof (Z.div_mod now (60 * 1000) ltac:(lia)).
  pose proof (Z.mod_pos_bound now (60 * 1000) ltac:(lia)). lia.
Qed.

(** The reset time the limiter returns with a denial is at most a window
    ahead of the clock, and the limiter keeps its memory of denials sane. *)
Lemma limit_sane (identifier : string) (req : Ratelimit.LimitOptions) (lat : N)
    (w w' : World) (r : Ratelimit.RatelimitResponse) :
  blocked_sane w ->
  Ratelimit.limit identifier req lat w = (Resolved r, w') ->
  blocked_sane w' /\ Ratelimit.reset r <= clock w' + Ratelimit.windowSize.
Proof.
  intros Hs. unfold Ratelimit.limit, Ratelimit.isBlocked.
  destruct (blockedUntil w !! Ratelimit.getKey identifier) as [r0|] eqn:Hb.
  - destruct (Z.ltb_spec r0 (clock w)).
    + destruct (Ratelimit.slidingWindowScript _ _ _ _) as [rem ws].
      intros [= <- <-]. cbn. pose proof (window_end_near (clock w)).
      split; [|lia]. intros key r1.
      cbn [blockedUntil with_blockedUntil with_windows elapse with_clock clock].
      destruct (0 <=? rem).
      * rewrite lookup_delete. destruct (decide _); [discriminate|].
        intros H1. specialize (Hs key r1 H1). lia.
      * rewrite lookup_insert. destruct (decide _).
        -- intros [= <-]. lia.
        -- rewrite lookup_delete. destruct (decide _); [discriminate|].
           intros H1. specialize (Hs key r1 H1). lia.
    + intros [= <- <-]. cbn. split; [|apply (Hs _ _ Hb)].
      intros key r1 H1. apply (Hs key r1 H1).
  - destruct (Ratelimit.slidingWindowScript _ _ _ _) as [rem ws].
    intros [= <- <-]. cbn. pose proof (window_end_near (clock w)).
    split; [|lia]. intros key r1.
    cbn [blockedUntil with_blockedUntil with_windows elapse with_clock clock].
    destruct (0 <=? rem).
    + intros H1. specialize (Hs key r1 H1). lia.
    + rewrite lookup_insert. destruct (decide _).
      * intros [= <-]. lia.
      * intros H1. specialize (Hs key r1 H1). lia.
Qed.

(** X6: the number of seconds a rate-limited check tells the caller to
    wait never exceeds 60, in the world of a fresh process and in every
    world that checks lead to from there: no reset time the limiter
    remembers lies more than a window ahead, and a check keeps it so. *)
Theorem retryAfter_bound (env : CheckEnv) (username ip : string) (w : World) :
  blocked_sane w ->
  blocked_sane (snd (checkUsername env username ip w))
  /\ (forall retryAfter : Z,
        fst (checkUsername env username ip w) = Resolved (RateLimited retryAfter) ->
        retryAfter <= 60).
Proof.
  intros Hs.
  destruct (cacheHolds (clock w + Z.of_N (get_lat env)) username w) as [v|] eqn:Hc.
  - rewrite (checkUsername_hit _ _ _ _ _ Hc). cbn [fst snd]. split; [|discriminate].
    apply (blocked_sane_later w); [reflexivity | cbn; lia | exact Hs].
  - rewrite (checkUsername_miss _ _ _ _ Hc).
    assert (Hs1 : blocked_sane (elapse (get_lat env) w))
      by (apply (blocked_sane_later w); [reflexivity | cbn; lia | exact Hs]).
    destruct (Ratelimit.limit _ _ _ _) as [[r| |] w2] eqn:E;
      [|destruct (limit_resolves "check_username" {| Ratelimit.ip := ip |} (limit_lat env)
                    (elapse (get_lat env) w)) as [r' Hr']; rewrite E in Hr'; discriminate ..].
    destruct (limit_sane _ _ _ _ _ _ Hs1 E) as [Hs2 Hreset].
    destruct (Ratelimit.success r); cbn [negb].
    + destruct (fetchWithCookies _ _ w2) as [[resp| |] w3] eqn:F;
        destruct (fetch_limiter_frame _ _ _ _ _ F) as (_ & Hbl & Hcl);
        cbn [fst snd];
        try (split; [apply (blocked_sane_later w2); assumption | discriminate]).
      destruct (negb (status resp =? 200) && negb (status resp =? 400));
        cbn [fst snd]; (split; [|discriminate]).
      * apply (blocked_sane_later w2); assumption.
      * destruct (set_limiter_frame (set_lat env) username (status resp =? 200) w3)
          as (_ & Hbl' & Hcl').
        apply (blocked_sane_later w2); [congruence | lia | assumption].
    + cbn [fst snd]. split; [exact Hs2|]. intros retryAfter [= <-].
      pose proof (ceil_seconds_spec (Ratelimit.reset r - clock w2)).
      unfold Ratelimit.windowSize in Hreset. lia.
Qed.

Lemma retryAfter_bound_witness :
  let w := after_checks 30 500 "newname" "203.0.113.7" (fresh t0) in
  blocked_sane (snd (checkUsername (env_with 200) "other" "198.51.100.22" w))
  /\ (forall retryAfter : Z,
        fst (checkUsername (env_with 200) "other" "198.51.100.22" w)
        = Resolved (RateLimited retryAfter) -> retryAfter <= 60).
Proof.
  intros w.
  apply (retryAfter_bound (env_with 200) "other" "198.51.100.22" w).
  intros key r H. vm_compute in H. discriminate H.
Defined.

(** ** The login protocol *)

(** Every run of [login] is of one of three kinds: it goes through, it
    fails in one of the four ways of the protocol, or a request fails. *)
Lemma login_cases (env : LoginEnv) (w : World) :
  (exists flowId token l,
      LoginAccepted env w flowId token l
      /\ fst (login env w) = Resolved tt
      /\ sent (snd (login env w))
         = (sent w ++ [ReqLoginBrowser; ReqLoginSubmit flowId token; ReqFollow l])%list)
  \/ (exists e, LoginFailure env w e /\ fst (login env w) = Rejected e)
  \/ fst (login env w) = Rejected FetchError.
Proof.
  destruct (login env w) as [res wf] eqn:L. cbn [fst snd].
  revert L. unfold login, await.
  destruct (reply (init_x env)) as [|r1] eqn:Hinit.
  { unfold fetchWithCookies, receive. rewrite Hinit. intros [= <- <-]. auto. }
  rewrite (after_init_answer _ _ _ Hinit).
  unfold login_after_init, await, cookieJar_getCookies.
  destruct (location r1 ≫= Str.flowMatch) as [flowId|] eqn:Hflow.
  2: { intros [= <- <-]. right; left. exists FlowIdMissing. split; [|reflexivity].
       eapply NoFlowId; eassumption. }
  destruct (csrfCookie _) as [c|] eqn:Hcsrf.
  2: { intros [= <- <-]. right; left. exists CsrfMissing. split; [|reflexivity].
       eapply NoCsrfCookie; eassumption. }
  unfold fetchWithCookies at 1, receive.
  destruct (reply (submit_x env)) as [|r2] eqn:Hsubmit.
  { intros [= <- <-]. auto. }
  unfold login_after_submit.
  destruct (location r2) as [l|] eqn:Hloc.
  2: { intros [= <- <-]. right; left. eexists. split; [|reflexivity].
       destruct (Z.eq_dec (status r2) 303) as [E|N].
       - eapply WrongRedirect; try eassumption. intros l. rewrite Hloc. discriminate.
       - eapply CredentialsRejected; eassumption. }
  destruct (Z.eqb_spec (status r2) 303) as [E|N]; cbn [negb orb].
  2: { intros [= <- <-]. right; left. eexists. split; [|reflexivity].
       eapply CredentialsRejected; eassumption. }
  destruct (Str.includes "/settings" l) eqn:Hinc; cbn [negb].
  2: { intros [= <- <-]. right; left. eexists. split; [|reflexivity].
       eapply WrongRedirect; try eassumption. intros l'. rewrite Hloc.
       intros [= <-]. exact Hinc. }
  unfold await, fetchWithCookies, receive.
  destruct (reply (follow_x env)) as [|r3] eqn:Hfollow.
  { intros [= <- <-]. auto. }
  intros [= <- <-].
  left. exists flowId, (Jar.value c), l. split; [|split].
  - eapply Accepted; eassumption.
  - reflexivity.
  - cbn. unfold after_init, fetchWithCookies, receive, send. rewrite Hinit. cbn.
    rewrite <- !app_assoc. reflexivity.
Qed.

Lemma login_never_exits (env : LoginEnv) (w : World) : fst (login env w) <> Exited.
Proof.
  destruct (login_cases env w) as [(f & t & l & _ & H & _) | [(e & _ & H) | H]];
    rewrite H; discriminate.
Qed.

Lemma accepted_not_failed (env : LoginEnv) (w : World) (flowId token l : string) (e : Error) :
  LoginAccepted env w flowId token l -> LoginFailure env w e -> False.
Proof.
  intros [r1 r2 r3 f l0 c A1 A2 A3 A4 A5 A6 A7 A8] F.
  destruct F as [q1 F1 F2 | q1 g F1 F2 F3 | q1 q2 g d F1 F2 F3 F4 F5
                | q1 q2 g d F1 F2 F3 F4 F5 F6];
    rewrite A1 in F1; injection F1 as <-; try congruence;
    rewrite A4 in F4; injection F4 as <-; try congruence.
  rewrite (F6 l0 A6) in A7. discriminate.
Qed.

(** X7: [login] resolves exactly when the first redirect names a flow, a
    CSRF cookie for the backend is in the jar, the credentials are
    answered with a 303 to a location containing [/settings], and no
    request fails.  It has then sent three requests, in this order: the
    opening one, the form for the flow id of the redirect with the token
    of the cookie, and the one that follows the second redirect. *)
Theorem login_accepted (env : LoginEnv) (w : World) :
  (fst (login env w) = Resolved tt <->
   exists flowId token l, LoginAccepted env w flowId token l)
  /\ (forall flowId token l,
        LoginAccepted env w flowId token l ->
        sent (snd (login env w))
        = (sent w ++ [ReqLoginBrowser; ReqLoginSubmit flowId token; ReqFollow l])%list).
Proof.
  destruct (login_cases env w) as [(f & t & l & Hacc & Hres & Hsent) | [(e & Hf & Hres) | Hres]].
  - split; [split; eauto|].
    intros f' t' l' Hacc'.
    destruct Hacc as [r1 r2 r3 f l c A1 A2 A3 A4 A5 A6 A7 A8].
    destruct Hacc' as [q1 q2 q3 f' l' c' B1 B2 B3 B4 B5 B6 B7 B8].
    rewrite A1 in B1. injection B1 as <-. rewrite A4 in B4. injection B4 as <-.
    assert (f' = f) as -> by congruence. assert (c' = c) as -> by congruence.
    assert (l' = l) as -> by congruence. exact Hsent.
  - split; [split|].
    + rewrite Hres. discriminate.
    + intros (f & t & l & Hacc). destruct (accepted_not_failed _ _ _ _ _ _ Hacc Hf).
    + intros f t l Hacc. destruct (accepted_not_failed _ _ _ _ _ _ Hacc Hf).
  - split; [split|].
    + rewrite Hres. discriminate.
    + intros (f & t & l & Hacc). exfalso.
      destruct Hacc as [r1 r2 r3 f l c A1 A2 A3 A4 A5 A6 A7 A8].
      revert Hres. unfold login, await. rewrite (after_init_answer _ _ _ A1).
      unfold login_after_init, await, cookieJar_getCookies. rewrite A2, A3.
      unfold fetchWithCookies, receive. rewrite A4.
      unfold login_after_submit. rewrite A6, A5, A7. cbn.
      unfold await, fetchWithCookies, receive. rewrite A8. discriminate.
    + intros f t l Hacc. exfalso.
      destruct Hacc as [r1 r2 r3 f l c A1 A2 A3 A4 A5 A6 A7 A8].
      revert Hres. unfold login, await. rewrite (after_init_answer _ _ _ A1).
      unfold login_after_init, await, cookieJar_getCookies. rewrite A2, A3.
      unfold fetchWithCookies, receive. rewrite A4.
      unfold login_after_submit. rewrite A6, A5, A7. cbn.
      unfold await, fetchWithCookies, receive. rewrite A8. discriminate.
Qed.

Lemma login_accepted_witness :
  sent (snd (login (good_login (t0 + hour)) (fresh t0)))
  = [ReqLoginBrowser;
     ReqLoginSubmit "5f1c0b2e-77aa-4d0e-9c3b-0a1b2c3d4e5f" "dG9rZW4=";
     ReqFollow "https://accounts.hytale.com/settings"].
Proof.
  apply (proj2 (login_accepted (good_login (t0 + hour)) (fresh t0))
           "5f1c0b2e-77aa-4d0e-9c3b-0a1b2c3d4e5f" "dG9rZW4="
           "https://accounts.hytale.com/settings").
  eapply (Accepted _ _ _ _ _ _ _ (Jar.stamp (t0 + 30) csrf)); reflexivity.
Defined.

(** X8: [login] never ends the process, and when it throws, the error is
    that of one of the four failures of the protocol, which has occurred,
    or the failure of a request. *)
Theorem login_errors (env : LoginEnv) (w : World) :
  fst (login env w) <> Exited
  /\ (forall e : Error,
        fst (login env w) = Rejected e -> LoginFailure env w e \/ e = FetchError).
Proof.
  split; [apply login_never_exits|].
  intros e He.
  destruct (login_cases env w) as [(f & t & l & _ & H & _) | [(e' & Hf & H) | H]];
    rewrite H in He; try discriminate; injection He as <-; auto.
Qed.

Lemma login_errors_witness :
  LoginFailure login_rejected (fresh t0)
    (LoginFailed 400 "The provided credentials are invalid")
  \/ LoginFailed 400 "The provided credentials are invalid" = FetchError.
Proof.
  apply (proj2 (login_errors login_rejected (fresh t0))). reflexivity.
Defined.

(** X9: a request that finds the session invalid and whose login fails
    gets no answer, the process having been sent SIGTERM, and on the way
    the cache was not written, no permit was taken and the availability
    endpoint was not asked. *)
Theorem failed_login_stops_request (env : HandlerEnv) (username : string)
    (address : option string) (w : World) (e : Error) :
  isSessionValid (clock w) (cookieJar w) = false ->
  LoginFailure (login_env env) w e ->
  exists w' : World,
    check_handler env username address w = (Exited, w')
    /\ redis w' = redis w /\ windows w' = windows w
    /\ blockedUntil w' = blockedUntil w
    /\ availability_requests (sent w') = availability_requests (sent w).
Proof.
  intros Hinvalid Hfail. pose proof (login_fails _ _ _ Hfail) as Hlogin.
  exists (snd (login (login_env env) w)).
  assert (Hens : ensureLoggedIn (login_env env) w = (Exited, snd (login (login_env env) w))).
  { unfold ensureLoggedIn, try_catch, process_kill_SIGTERM. rewrite Hinvalid.
    destruct (login (login_env env) w) as [[[]| |] w1]; cbn [fst snd] in *; congruence. }
  split.
  - unfold check_handler, await. rewrite Hens. reflexivity.
  - destruct (ensureLoggedIn_untouched _ _ _ _ Hens) as (H1 & H2 & H3 & H4). auto.
Qed.

Lemma failed_login_stops_request_witness :
  exists w' : World,
    check_handler {| login_env := login_without_csrf; check_env := env_with 200 |}
                  "newname" None (fresh t0) = (Exited, w')
    /\ availability_requests (sent w') = [].
Proof.
  destruct (failed_login_stops_request
              {| login_env := login_without_csrf; check_env := env_with 200 |}
              "newname" None (fresh t0) CsrfMissing eq_refl)
    as (w' & H & _ & _ & _ & Ha).
  - eapply NoCsrfCookie; reflexivity.
  - exists w'. split; [exact H | exact Ha].
Defined.

(** ** The flow id *)

Lemma append_cons (a : ascii) (p q : string) :
  (String a p ++ q)%string = String a (p ++ q)%string.
Proof. reflexivity. Qed.

Lemma prefix_app (p s : string) :
  String.prefix p s = true -> s = (p ++ Str.dropN (String.length p) s)%string.
Proof.
  revert s. induction p as [|a p IH]; intros s H; [reflexivity|].
  destruct s as [|b s]; [discriminate|]. cbn in H.
  destruct (ascii_dec a b) as [->|]; [|discriminate].
  change (String b s = String b (p ++ Str.dropN (String.length p) s)%string).
  f_equal. apply IH, H.
Qed.

Lemma prefix_of_app (p q r : string) :
  String.prefix q r = true -> String.prefix (p ++ q) (p ++ r) = true.
Proof.
  intros H. induction p as [|a p IH]; [exact H|]. rewrite !append_cons. cbn.
  destruct (ascii_dec a a); [exact IH | congruence].
Qed.

Lemma takeWhile_prefix (f : ascii -> bool) (s : string) :
  String.prefix (Str.takeWhile f s) s = true.
Proof.
  induction s as [|c s IH]; [reflexivity|]. cbn.
  destruct (f c); [|reflexivity]. cbn.
  destruct (ascii_dec c c); [exact IH | congruence].
Qed.

Lemma takeWhile_all (f : ascii -> bool) (s : string) (c : ascii) :
  In c (list_ascii_of_string (Str.takeWhile f s)) -> f c = true.
Proof.
  induction s as [|a s IH]; cbn; [tauto|].
  destruct (f a) eqn:E; cbn; [|tauto]. intros [<-|H]; auto.
Qed.

Lemma includes_prefix (p s : string) : String.prefix p s = true -> Str.includes p s = true.
Proof. intros H. destruct s; cbn [Str.includes]; rewrite H; reflexivity. Qed.

Lemma includes_tail (p : string) (c : ascii) (s : string) :
  Str.includes p s = true -> Str.includes p (String c s) = true.
Proof.
  intros H. cbn [Str.includes].
  destruct (String.prefix p (String c s)); [reflexivity | exact H].
Qed.

(** X10: the flow id that [login] takes from the redirect is never empty,
    consists of the characters a-f, 0-9 and - only, and stands in the
    location right after [flow=]; a location without [flow=] gives none. *)
Theorem flowMatch_sound (s : string) :
  (forall id : string,
     Str.flowMatch s = Some id ->
     id <> EmptyString
     /\ (forall c, In c (list_ascii_of_string id) -> Str.isFlowChar c = true)
     /\ Str.includes ("flow=" ++ id) s = true)
  /\ (Str.includes "flow=" s = false -> Str.flowMatch s = None).
Proof.
  split.
  - induction s as [|a s IH]; intros id H; [discriminate|].
    cbn [Str.flowMatch] in H.
    destruct (String.prefix "flow=" (String a s)) eqn:Hp.
    + destruct (Str.takeWhile Str.isFlowChar (Str.dropN 5 (String a s))) as [|c run] eqn:Hrun.
      * destruct (IH id H) as (H1 & H2 & H3). repeat split; auto using includes_tail.
      * injection H as <-. split; [discriminate|]. split.
        -- intros x Hx. rewrite <- Hrun in Hx. exact (takeWhile_all _ _ _ Hx).
        -- apply includes_prefix. rewrite (prefix_app _ _ Hp) at 1.
           apply prefix_of_app. rewrite <- Hrun. apply takeWhile_prefix.
    + destruct (IH id H) as (H1 & H2 & H3). repeat split; auto using includes_tail.
  - induction s as [|a s IH]; intros H; [reflexivity|].
    cbn [Str.includes] in H. cbn [Str.flowMatch].
    destruct (String.prefix "flow=" (String a s)); [discriminate|]. exact (IH H).
Qed.

Lemma flowMatch_sound_witness :
  Str.includes "flow=0a-1f"
    "https://accounts.hytale.com/login?flow=0a-1f&return_to=flow=zz" = true
  /\ Str.flowMatch "https://accounts.hytale.com/login" = None.
Proof.
  split.
  - apply (proj1 (flowMatch_sound
                    "https://accounts.hytale.com/login?flow=0a-1f&return_to=flow=zz")
             "0a-1f"). reflexivity.
  - apply (proj2 (flowMatch_sound "https://accounts.hytale.com/login")). reflexivity.
Defined.

(** ** The status report *)

Lemma toFixed2_large (ms : Z) : 5 * 60 * 1000 < ms -> 8 <= toFixed2 ms.
Proof.
  intros H. unfold toFixed2.
  assert (Z.sgn ms = 1) as -> by (apply Z.sgn_pos; lia).
  assert (8 <= (Z.abs ms + 18000) / 36000) by (apply Z.div_le_lower_bound; lia).
  lia.
Qed.

(** X11: a status that says logged in always carries the expiry of the
    session cookie, more than five minutes ahead, and a positive number of
    hours left, at least 0.08. *)
Theorem status_logged_in (now : Z) (jar : list Jar.Cookie) (st : Status) :
  status_handler now jar = Returns st ->
  loggedIn st = true ->
  exists e n : Z,
    expiresAt st = Some e /\ now + 5 * 60 * 1000 < e
    /\ hoursLeft st = Some n /\ 8 <= n.
Proof.
  unfold status_handler, getSessionExpiry, isSessionValid.
  destruct (sessionCookie now jar) as [c|]; [|intros [= <-]; discriminate].
  destruct (Jar.expires c) as [| |e]; [discriminate | intros [= <-]; discriminate |].
  intros [= <-]. cbn. intros Hv. apply Z.ltb_lt in Hv.
  exists e, (toFixed2 (e - now)). split; [reflexivity|]. split; [lia|].
  destruct (Z.eqb_spec (e - now) 0); [lia|]. cbn.
  split; [reflexivity | apply toFixed2_large; lia].
Qed.

Lemma status_logged_in_witness :
  status_handler t0 [session (t0 + hour)]
  = Returns {| loggedIn := true; expiresAt := Some (t0 + hour); hoursLeft := Some 100 |}
  /\ 8 <= 100.
Proof.
  split; [reflexivity|].
  destruct (status_logged_in t0 [session (t0 + hour)] _ eq_refl eq_refl)
    as (e & n & _ & _ & Hn & Hle).
  cbn in Hn. injection Hn as <-. exact Hle.
Defined.

(** X12: the status handler throws exactly when the jar hands out a
    session cookie that came without an expiry date: [toISOString] is then
    called on an invalid date.  The session never counts as valid then. *)
Theorem status_throws (now : Z) (jar : list Jar.Cookie) :
  (status_handler now jar = RangeError <->
   exists c, sessionCookie now jar = Some c /\ Jar.expires c = Jar.ExpInfinity)
  /\ (status_handler now jar = RangeError -> isSessionValid now jar = false).
Proof.
  unfold status_handler, getSessionExpiry, isSessionValid.
  destruct (sessionCookie now jar) as [c|].
  - destruct (Jar.expires c) as [| |e] eqn:E; cbn.
    + split; [|reflexivity]. split; [eauto | reflexivity].
    + split; [|discriminate]. split; [discriminate|].
      intros (c' & [= <-] & H). congruence.
    + split; [|discriminate]. split; [discriminate|].
      intros (c' & [= <-] & H). congruence.
  - cbn. split; [|discriminate]. split; [discriminate|].
    intros (c' & H & _). discriminate.
Qed.

(** ** The first version *)

(** X13: in the first version the session is probed with a request on
    every call.  A 200 or a 400 of the probe means logged in, and nothing
    else is sent; otherwise a login is made, and when it fails its error
    is not caught: [ensureLoggedIn] throws it and the process lives on. *)
Theorem v1_ensureLoggedIn (probe : Exchange) (env : LoginEnv) (w : World) (r : Response) :
  reply probe = Answer r ->
  let w1 := snd (fetchWithCookies (ReqAvailability "test") probe w) in
  (status r = 200 \/ status r = 400 ->
     V1.ensureLoggedIn probe env w = (Resolved tt, w1)
     /\ sent w1 = (sent w ++ [ReqAvailability "test"])%list)
  /\ (forall e : Error,
        status r <> 200 -> status r <> 400 -> LoginFailure env w1 e ->
        fst (V1.ensureLoggedIn probe env w) = Rejected e).
Proof.
  intros Hreply w1.
  assert (Hf : fetchWithCookies (ReqAvailability "test") probe w = (Resolved r, w1)).
  { subst w1. unfold fetchWithCookies, receive. rewrite Hreply. reflexivity. }
  assert (Hs : sent w1 = (sent w ++ [ReqAvailability "test"])%list).
  { subst w1. unfold fetchWithCookies, receive. rewrite Hreply. reflexivity. }
  clearbody w1.
  unfold V1.ensureLoggedIn, V1.isLoggedIn, await. rewrite Hf. unfold resolve at 1.
  split.
  - intros [-> | ->]; cbn; split; auto.
  - intros e H200 H400 Hfail.
    destruct (Z.eqb_spec (status r) 200); [contradiction|].
    destruct (Z.eqb_spec (status r) 400); [contradiction|]. cbn [orb negb].
    apply login_fails. exact Hfail.
Qed.

Lemma v1_ensureLoggedIn_witness :
  V1.ensureLoggedIn (answer 400) login_rejected (fresh t0)
  = (Resolved tt, snd (fetchWithCookies (ReqAvailability "test") (answer 400) (fresh t0)))
  /\ fst (V1.ensureLoggedIn (answer 302) login_rejected (fresh t0))
     = Rejected (LoginFailed 400 "The provided credentials are invalid").
Proof.
  split.
  - apply (v1_ensureLoggedIn (answer 400) login_rejected (fresh t0) (plain 400) eq_refl).
    right. reflexivity.
  - apply (v1_ensureLoggedIn (answer 302) login_rejected (fresh t0) (plain 302) eq_refl);
      [discriminate | discriminate |].
    eapply CredentialsRejected
      with (r2 := {| status := 400; location := None; set_cookies := [];
                     body := "The provided credentials are invalid" |});
      try reflexivity. discriminate.
Defined.

(** X14: the two versions on one answer of the origin.  The first version
    reports available for a 200 and taken for everything else; the second,
    on a cache miss that the limiter lets through, gives the same verdict
    for a 200 and a 400 and an upstream error where the first said taken. *)
Theorem v1_and_v2_verdicts (env : CheckEnv) (username ip : string) (w v : World)
    (response : Response) :
  cacheHolds (clock w + Z.of_N (get_lat env)) username w = None ->
  admits env ip w = true ->
  reply (origin_x env) = Answer response ->
  fst (V1.checkUsername username (origin_x env) v) = Resolved (status response =? 200)
  /\ fst (checkUsername env username ip w)
     = Resolved (if (status response =? 200) || (status response =? 400)
                 then Ok (status response =? 200) false
                 else HytaleApiError (status response)).
Proof.
  intros Hmiss Hadm Hreply. split.
  - unfold V1.checkUsername, await, fetchWithCookies, receive. rewrite Hreply. reflexivity.
  - destruct (admits_inv _ _ _ Hadm) as (r & w2 & Hlimit & Hok).
    rewrite (checkUsername_miss _ _ _ _ Hmiss), Hlimit, Hok. cbn [negb].
    unfold fetchWithCookies, receive. rewrite Hreply.
    destruct (status response =? 200), (status response =? 400); reflexivity.
Qed.

Lemma v1_and_v2_verdicts_witness :
  fst (V1.checkUsername "newname" (answer 500) (fresh t0)) = Resolved false
  /\ fst (checkUsername (env_with 500) "newname" "203.0.113.7" (fresh t0))
     = Resolved (HytaleApiError 500).
Proof.
  apply (v1_and_v2_verdicts (env_with 500) "newname" "203.0.113.7" (fresh t0) (fresh t0)
           (plain 500)); reflexivity.
Defined.

(** X15: in the first version every check of a logged-in process costs
    the origin two requests, the probe for the name [test] and the query
    itself, whatever was asked before; the cache and the limiter are not
    involved. *)
Theorem v1_check_costs_two (env : V1.HandlerEnv) (username : string) (w : World)
    (rp rc : Response) :
  reply (V1.probe_x env) = Answer rp ->
  status rp = 200 \/ status rp = 400 ->
  reply (V1.check_x env) = Answer rc ->
  exists w' : World,
    V1.check_handler env username w = (Resolved (username, status rc =? 200), w')
    /\ sent w' = (sent w ++ [ReqAvailability "test"; ReqAvailability username])%list
    /\ redis w' = redis w /\ windows w' = windows w.
Proof.
  intros Hp Hst Hc.
  unfold V1.check_handler, V1.ensureLoggedIn, V1.isLoggedIn, V1.checkUsername, await.
  unfold fetchWithCookies, receive. rewrite Hp. unfold resolve at 1.
  assert ((status rp =? 200) || (status rp =? 400) = true) as ->
    by (destruct Hst as [-> | ->]; reflexivity).
  cbn [negb]. unfold resolve at 1. rewrite Hc.
  eexists. split; [reflexivity|]. cbn. rewrite <- app_assoc. repeat split.
Qed.

Lemma v1_check_costs_two_witness :
  exists w' : World,
    V1.check_handler {| V1.probe_x := answer 200; V1.login_env := login_rejected;
                        V1.check_x := answer 400 |} "takenname" (fresh t0)
    = (Resolved ("takenname", false), w')
    /\ sent w' = [ReqAvailability "test"; ReqAvailability "takenname"].
Proof.
  destruct (v1_check_costs_two
              {| V1.probe_x := answer 200; V1.login_env := login_rejected;
                 V1.check_x := answer 400 |} "takenname" (fresh t0) (plain 200) (plain 400)
              eq_refl (or_introl eq_refl) eq_refl) as (w' & H & Hs & _).
  exists w'. split; [exact H | exact Hs].
Defined.

(** ** The adapter *)

(** X16: the adapter's [set] gives a key an expiry only for a positive
    [ex].  Without options, without [ex] and with [ex] 0 the value is
    stored for good; with a positive [ex] it is read back until that many
    seconds have passed and not after; a negative [ex] reaches the client,
    which refuses the command. *)
Theorem adapter_set_expiry (now : Z) (key value : string) (db : gmap string Redis.Entry) :
  (forall options,
     options = None \/ options = Some {| Adapter.ex := None |}
     \/ options = Some {| Adapter.ex := Some 0 |} ->
     exists db', Adapter.set now key value options db = Some db'
                 /\ forall later, Adapter.get later key db' = Some value)
  /\ (forall s, 0 < s ->
        exists db', Adapter.set now key value (Some {| Adapter.ex := Some s |}) db = Some db'
                    /\ (forall later, later <= now + s * 1000 ->
                          Adapter.get later key db' = Some value)
                    /\ (forall later, now + s * 1000 < later ->
                          Adapter.get later key db' = None))
  /\ (forall s, s < 0 ->
        Adapter.set now key value (Some {| Adapter.ex := Some s |}) db = None).
Proof.
  split; [|split].
  - intros options [-> | [-> | ->]]; (eexists; split; [reflexivity|]);
      intros later; unfold Adapter.get; rewrite redis_get_set; reflexivity.
  - intros s Hs. unfold Adapter.set, Adapter.client_set. cbn.
    destruct (Z.eqb_spec s 0); [lia|]. cbn.
    destruct (Z.leb_spec s 0); [lia|].
    eexists. split; [reflexivity|]. unfold Adapter.get.
    split; intros later Hl; rewrite redis_get_set.
    + destruct (Z.leb_spec later (now + s * 1000)); [reflexivity | lia].
    + destruct (Z.leb_spec later (now + s * 1000)); [lia | reflexivity].
  - intros s Hs. unfold Adapter.set, Adapter.client_set. cbn.
    destruct (Z.eqb_spec s 0); [lia|]. cbn.
    destruct (Z.leb_spec s 0); [reflexivity | lia].
Qed.

Lemma adapter_set_expiry_witness :
  (exists db', Adapter.set t0 "k" "v" (Some {| Adapter.ex := Some 0 |}) ∅ = Some db'
               /\ forall later, Adapter.get later "k" db' = Some "v")
  /\ (exists db', Adapter.set t0 "k" "v" (Some {| Adapter.ex := Some 60 |}) ∅ = Some db'
                  /\ Adapter.get (t0 + 60001) "k" db' = None)
  /\ Adapter.set t0 "k" "v" (Some {| Adapter.ex := Some (-1) |}) ∅ = None.
Proof.
  destruct (adapter_set_expiry t0 "k" "v" ∅) as (H0 & Hpos & Hneg).
  split; [|split].
  - apply H0. right; right; reflexivity.
  - destruct (Hpos 60 ltac:(lia)) as (db' & E & _ & Hafter).
    exists db'. split; [exact E|]. apply Hafter. unfold t0. lia.
  - apply Hneg. lia.
Defined.

(** X17: a script call passes the number of keys, then the keys, then the
    arguments; the server reads back exactly the keys as KEYS and exactly
    the arguments as ARGV, [eval] having turned each argument into a
    string and taken missing arguments for none. *)
Theorem script_call_layout {A : Type} (toString : A -> string) (script : string)
    (keys : list string) (args : list A) (sargs : list string) :
  Adapter.KEYS (Adapter.eval toString script keys (Some args)) = keys
  /\ Adapter.ARGV (Adapter.eval toString script keys (Some args)) = List.map toString args
  /\ Adapter.KEYS (Adapter.eval toString script keys None) = keys
  /\ Adapter.ARGV (Adapter.eval toString script keys None) = []
  /\ Adapter.KEYS (Adapter.evalsha script keys sargs) = keys
  /\ Adapter.ARGV (Adapter.evalsha script keys sargs) = sargs.
Proof.
  unfold Adapter.KEYS, Adapter.ARGV, Adapter.eval, Adapter.evalsha.
  cbn [Adapter.numkeys Adapter.row].
  repeat split; first [apply take_app_length | apply drop_app_length].
Qed.

(** ** The list of permitted origins *)

Lemma split_nonempty (s : string) : Env.split s <> [].
Proof.
  induction s as [|c s IH]; cbn; [discriminate|].
  destruct (Ascii.eqb c ","); [discriminate|].
  destruct (Env.split s); discriminate.
Qed.

Lemma split_noComma (s p : string) : In p (Env.split s) -> noComma p.
Proof.
  unfold noComma. revert p. induction s as [|c s IH]; intros p.
  - cbn. intros [<-|[]]. cbn. tauto.
  - cbn [Env.split]. destruct (Ascii.eqb_spec c ",") as [->|Hc].
    + intros [<-|H]; [cbn; tauto | exact (IH p H)].
    + destruct (Env.split s) as [|h t] eqn:E; [destruct (split_nonempty s E)|].
      intros [<-|H].
      * cbn. intros [?|Hin]; [congruence|]. apply (IH h); [left; reflexivity | exact Hin].
      * apply (IH p). right. exact H.
Qed.

Lemma trimStart_chars (s : string) (c : ascii) :
  In c (list_ascii_of_string (Env.trimStart s)) -> In c (list_ascii_of_string s).
Proof.
  induction s as [|a s IH]; cbn; [tauto|].
  destruct (Env.isSpace a); cbn; [auto | tauto].
Qed.

Lemma trimEnd_chars (s : string) (c : ascii) :
  In c (list_ascii_of_string (Env.trimEnd s)) -> In c (list_ascii_of_string s).
Proof.
  induction s as [|a s IH]; cbn [Env.trimEnd]; [tauto|].
  destruct (Env.trimEnd s) as [|b r].
  - destruct (Env.isSpace a); cbn; tauto.
  - cbn in IH |- *. tauto.
Qed.

Lemma trim_noComma (s : string) : noComma s -> noComma (Env.trim s).
Proof.
  unfold noComma, Env.trim. intros H Hin.
  apply H, trimStart_chars, trimEnd_chars, Hin.
Qed.

(** A string begins clean when it is empty or its first character is not
    white space. *)
Lemma trimStart_fix (s : string) :
  match s with
  | EmptyString => True
  | String c _ => Env.isSpace c = false
  end -> Env.trimStart s = s.
Proof. destruct s as [|c s]; cbn; [reflexivity|]. intros ->. reflexivity. Qed.

Lemma trimStart_clean (s : string) :
  match Env.trimStart s with
  | EmptyString => True
  | String c _ => Env.isSpace c = false
  end.
Proof.
  induction s as [|c s IH]; cbn; [exact I|].
  destruct (Env.isSpace c) eqn:E; [exact IH | exact E].
Qed.

Lemma trimEnd_keeps_clean (s : string) :
  match s with
  | EmptyString => True
  | String c _ => Env.isSpace c = false
  end ->
  match Env.trimEnd s with
  | EmptyString => True
  | String c _ => Env.isSpace c = false
  end.
Proof.
  destruct s as [|c s]; cbn [Env.trimEnd]; [auto|]. intros Hc.
  destruct (Env.trimEnd s); [rewrite Hc|]; exact Hc.
Qed.

Lemma trimEnd_idem (s : string) : Env.trimEnd (Env.trimEnd s) = Env.trimEnd s.
Proof.
  induction s as [|c s IH]; [reflexivity|]. cbn [Env.trimEnd].
  destruct (Env.trimEnd s) as [|b r] eqn:E.
  - destruct (Env.isSpace c) eqn:Hc; [reflexivity|]. cbn. rewrite Hc. reflexivity.
  - cbn [Env.trimEnd]. cbn [Env.trimEnd] in IH.
    destruct (Env.trimEnd r) as [|b' r'].
    + destruct (Env.isSpace b); [discriminate|]. injection IH as <-. reflexivity.
    + rewrite IH. reflexivity.
Qed.

Lemma trim_trimmed (s : string) : trimmed (Env.trim s).
Proof.
  unfold trimmed, Env.trim. split; [|apply trimEnd_idem].
  apply trimStart_fix, trimEnd_keeps_clean, trimStart_clean.
Qed.

Lemma trimmed_trim (s : string) : trimmed s -> Env.trim s = s.
Proof. unfold trimmed, Env.trim. intros [-> ->]. reflexivity. Qed.

Lemma origins_elem (val o : string) :
  In o (Env.origins val) -> o <> EmptyString /\ trimmed o /\ noComma o.
Proof.
  unfold Env.origins. rewrite List.filter_In, List.in_map_iff.
  intros [(p & <- & Hp) Hne]. split; [|split].
  - intros E. rewrite E in Hne. discriminate.
  - apply trim_trimmed.
  - apply trim_noComma, (split_noComma val), Hp.
Qed.

(** X18: every origin read from [CORS_ORIGINS] is a non-empty string
    without a comma that neither begins nor ends with white space. *)
Theorem origins_clean (val : string) :
  Forall (fun o => o <> EmptyString /\ trimmed o /\ noComma o) (Env.origins val).
Proof. apply List.Forall_forall. intros o. apply origins_elem. Qed.

Lemma split_single (x : string) : noComma x -> Env.split x = [x].
Proof.
  unfold noComma. induction x as [|c x IH]; [reflexivity|].
  cbn. intros H. destruct (Ascii.eqb_spec c ",") as [->|_]; [tauto|].
  rewrite IH by tauto. reflexivity.
Qed.

Lemma split_app_comma (x rest : string) :
  noComma x -> Env.split (x ++ String "," rest)%string = x :: Env.split rest.
Proof.
  unfold noComma. induction x as [|c x IH]; [reflexivity|].
  rewrite append_cons. cbn. intros H.
  destruct (Ascii.eqb_spec c ",") as [->|_]; [tauto|].
  rewrite IH by tauto. reflexivity.
Qed.

Lemma split_concat (os : list string) :
  os <> [] -> Forall noComma os -> Env.split (String.concat "," os) = os.
Proof.
  induction os as [|x os IH]; [congruence|]. intros _ Hall.
  inversion Hall as [|? ? Hx Hos]; subst.
  destruct os as [|y os'].
  - cbn. apply split_single, Hx.
  - change (String.concat "," (x :: y :: os'))
      with (x ++ String "," (String.concat "," (y :: os')))%string.
    rewrite (split_app_comma _ _ Hx), IH; [reflexivity | discriminate | exact Hos].
Qed.

(** X19: the list of origins is in normal form: written out again with
    commas between the origins and read anew, it comes back the same. *)
Theorem origins_roundtrip (val : string) :
  Env.origins (String.concat "," (Env.origins val)) = Env.origins val.
Proof.
  pose proof (origins_elem val) as Hel.
  destruct (Env.origins val) as [|x os] eqn:E; [reflexivity|].
  unfold Env.origins at 1.
  rewrite split_concat; [|discriminate|].
  2: { apply List.Forall_forall. intros o Ho. apply (Hel o Ho). }
  assert (Hmap : List.map Env.trim (x :: os) = x :: os).
  { clear E. induction (x :: os) as [|a l IH]; [reflexivity|]. cbn.
    rewrite (trimmed_trim a) by (apply (Hel a); left; reflexivity).
    f_equal. apply IH. intros o Ho. apply Hel. right. exact Ho. }
  rewrite Hmap. clear Hmap E.
  induction (x :: os) as [|a l IH]; [reflexivity|]. cbn.
  destruct (String.eqb_spec a EmptyString) as [Ea|_].
  - destruct (proj1 (Hel a (or_introl eq_refl)) Ea).
  - cbn. f_equal. apply IH. intros o Ho. apply Hel. right. exact Ho.
Qed.

Lemma split_chars (s p : string) (c : ascii) :
  In p (Env.split s) -> In c (list_ascii_of_string p) -> In c (list_ascii_of_string s).
Proof.
  revert p. induction s as [|a s IH]; intros p.
  - cbn. intros [<-|[]]. tauto.
  - cbn [Env.split]. destruct (Ascii.eqb a ",").
    + intros [<-|H] Hc; [destruct Hc | right; exact (IH p H Hc)].
    + destruct (Env.split s) as [|h t] eqn:E; [destruct (split_nonempty s E)|].
      intros [<-|H] Hc.
      * cbn in Hc |- *. destruct Hc as [?|Hc]; [tauto|].
        right. apply (IH h); [left; reflexivity | exact Hc].
      * right. apply (IH p); [right; exact H | exact Hc].
Qed.

Lemma trimStart_blank (s : string) :
  (forall c, In c (list_ascii_of_string s) -> Env.isSpace c = true) ->
  Env.trimStart s = EmptyString.
Proof.
  induction s as [|a s IH]; [reflexivity|]. cbn. intros H.
  rewrite (H a (or_introl eq_refl)). apply IH. intros c Hc. apply H. right. exact Hc.
Qed.

Lemma filter_none {A : Type} (f : A -> bool) (l : list A) :
  (forall x, In x l -> f x = false) -> List.filter f l = [].
Proof.
  induction l as [|a l IH]; [reflexivity|]. cbn. intros H.
  rewrite (H a (or_introl eq_refl)). apply IH. intros x Hx. apply H. right. exact Hx.
Qed.

(** X20: a [CORS_ORIGINS] made of commas and white space only has no
    origin in it, and the schema rejects it whatever the URL check would
    say, although the value is not empty. *)
Theorem separators_only_rejected (isUrl : string -> bool) (val : string) :
  (forall c : ascii,
     In c (list_ascii_of_string val) -> c = ","%char \/ Env.isSpace c = true) ->
  Env.origins val = [] /\ Env.CORS_ORIGINS isUrl (Some val) = None.
Proof.
  intros Hsep.
  assert (Hnone : Env.origins val = []).
  { unfold Env.origins. apply filter_none. intros o Ho.
    apply List.in_map_iff in Ho as (p & <- & Hp).
    assert (Env.trim p = EmptyString) as ->; [|reflexivity].
    unfold Env.trim. rewrite trimStart_blank; [reflexivity|].
    intros c Hc. destruct (Hsep c (split_chars _ _ _ Hp Hc)) as [->|H]; [|exact H].
    destruct (split_noComma _ _ Hp Hc). }
  split; [exact Hnone|].
  destruct val; [reflexivity|]. unfold Env.CORS_ORIGINS. rewrite Hnone. reflexivity.
Qed.

Lemma separators_only_rejected_witness :
  Env.origins " , ,  ," = []
  /\ Env.CORS_ORIGINS (fun _ => true) (Some " , ,  ,") = None.
Proof.
  apply (separators_only_rejected (fun _ => true) " , ,  ,").
  intros c Hc. cbn in Hc.
  repeat (destruct Hc as [<-|Hc]; [first [left; reflexivity | right; reflexivity]|]).
  destruct Hc.
Defined.

(** ** The handlers *)

(** X21: the status reports of the two versions differ in one field only.
    The first version takes [loggedIn] from a probe of the origin, 200 or
    400 meaning logged in, where the second reads the cookie; [expiresAt],
    [hoursLeft] and the error on a cookie without expiry date are the
    same, read when the probe's reply has arrived. *)
Theorem v1_status_report (probe : Exchange) (w : World) (r : Response) :
  reply probe = Answer r ->
  let w1 := snd (fetchWithCookies (ReqAvailability "test") probe w) in
  V1.status_handler probe w
  = (Resolved
       match status_handler (clock w1) (cookieJar w1) with
       | Returns st =>
           Returns {| loggedIn := (status r =? 200) || (status r =? 400);
                      expiresAt := expiresAt st;
                      hoursLeft := hoursLeft st |}
       | RangeError => RangeError
       end, w1).
Proof.
  intros Hreply w1.
  assert (Hf : fetchWithCookies (ReqAvailability "test") probe w = (Resolved r, w1)).
  { subst w1. unfold fetchWithCookies, receive. rewrite Hreply. reflexivity. }
  clearbody w1.
  unfold V1.status_handler, V1.isLoggedIn, await. rewrite Hf. unfold resolve at 1.
  unfold V1.getSessionExpiry, await, cookieJar_getCookies, Date_now.
  unfold status_handler, getSessionExpiry, sessionCookie.
  destruct (List.find _ _) as [c|]; [|reflexivity].
  destruct (Jar.expires c); reflexivity.
Qed.

Lemma v1_status_report_witness :
  fst (V1.status_handler (answer 302)
         (snd (ensureLoggedIn (good_login (t0 + hour)) (fresh t0))))
  = Resolved (Returns {| loggedIn := false; expiresAt := Some (t0 + hour);
                         hoursLeft := Some 100 |}).
Proof.
  rewrite (v1_status_report (answer 302)
             (snd (ensureLoggedIn (good_login (t0 + hour)) (fresh t0))) (plain 302) eq_refl).
  reflexivity.
Defined.

(** X22: what [GET /check/:username] answers when the session is valid.
    A cached verdict gives 200 with [cached] true; a denial of the limiter
    gives 429; an answer of the origin gives 200 with the verdict for a
    200 or a 400 and 502 with the upstream status otherwise; a failed
    origin request makes the handler throw.  The name is echoed as the
    caller spelled it, and a caller without address counts as "unknown". *)
Theorem check_handler_replies (env : HandlerEnv) (username : string)
    (address : option string) (w : World) :
  isSessionValid (clock w) (cookieJar w) = true ->
  let ip := default "unknown" address in
  (forall v, cacheHolds (clock w + Z.of_N (get_lat (check_env env))) username w = Some v ->
     fst (check_handler env username address w)
     = Resolved (Reply200 username (String.eqb v "1") true))
  /\ (cacheHolds (clock w + Z.of_N (get_lat (check_env env))) username w = None ->
      (admits (check_env env) ip w = false ->
         exists retryAfter,
           fst (check_handler env username address w) = Resolved (Reply429 retryAfter))
      /\ (forall response,
            admits (check_env env) ip w = true ->
            reply (origin_x (check_env env)) = Answer response ->
            fst (check_handler env username address w)
            = Resolved (if (status response =? 200) || (status response =? 400)
                        then Reply200 username (status response =? 200) false
                        else Reply502 (status response)))
      /\ (admits (check_env env) ip w = true ->
          reply (origin_x (check_env env)) = NetworkFailure ->
          fst (check_handler env username address w) = Rejected FetchError)).
Proof.
  intros Hvalid ip.
  unfold check_handler, await. rewrite (ensureLoggedIn_valid _ _ Hvalid). fold ip.
  split; [|intros Hmiss; split; [|split]].
  - intros v Hhit. rewrite (checkUsername_hit _ _ _ _ _ Hhit). reflexivity.
  - intros Hadm. destruct (admits_false_inv _ _ _ Hadm) as (r & w2 & Hlimit & Hno).
    rewrite (checkUsername_miss _ _ _ _ Hmiss), Hlimit, Hno. cbn. eauto.
  - intros response Hadm Hreply.
    destruct (admits_inv _ _ _ Hadm) as (r & w2 & Hlimit & Hok).
    rewrite (checkUsername_miss _ _ _ _ Hmiss), Hlimit, Hok. cbn [negb].
    unfold fetchWithCookies, receive. rewrite Hreply.
    destruct (status response =? 200), (status response =? 400); reflexivity.
  - intros Hadm Hreply.
    destruct (admits_inv _ _ _ Hadm) as (r & w2 & Hlimit & Hok).
    rewrite (checkUsername_miss _ _ _ _ Hmiss), Hlimit, Hok. cbn [negb].
    unfold fetchWithCookies, receive. rewrite Hreply. reflexivity.
Qed.

Lemma check_handler_replies_witness :
  let w := snd (ensureLoggedIn (good_login (t0 + hour)) (fresh t0)) in
  fst (check_handler {| login_env := login_rejected; check_env := env_with 503 |}
                     "NewName" None w)
  = Resolved (Reply502 503).
Proof.
  intros w.
  destruct (check_handler_replies
              {| login_env := login_rejected; check_env := env_with 503 |}
              "NewName" None w eq_refl) as [_ Hmiss].
  destruct (Hmiss eq_refl) as (_ & Horigin & _).
  apply (Horigin (plain 503)); reflexivity.
Defined.

(** ** Permits over a sequence of checks *)

(** One check: either no permit is granted and the counters stay, or a
    permit is granted and the counter of the current window goes up by one,
    within bounds. *)
Lemma checkUsername_permit (env : CheckEnv) (username ip : string) (w : World) :
  counters_bounded (windows w) ->
  exists (c : Completion CheckResult) (w' : World),
    checkUsername env username ip w = (c, w')
    /\ ((permitted c = false /\ windows w' = windows w)
        \/ (permitted c = true
            /\ Ratelimit.counter (countedUnder env w) (windows w) + 1 <= Ratelimit.tokens
            /\ windows w'
               = <[countedUnder env w
                   := Ratelimit.counter (countedUnder env w) (windows w) + 1]> (windows w))).
Proof.
  intros Hb.
  destruct (cacheHolds (clock w + Z.of_N (get_lat env)) username w) as [v|] eqn:Hc.
  { rewrite (checkUsername_hit _ _ _ _ _ Hc). eexists _, _. split; [reflexivity|].
    left. split; reflexivity. }
  rewrite (checkUsername_miss _ _ _ _ Hc).
  destruct (limit_cases "check_username" {| Ratelimit.ip := ip |} (limit_lat env)
              (elapse (get_lat env) w) Hb) as (r & w2 & E & Hcase).
  rewrite E. destruct Hcase as [[Hno Hw] | (Hyes & Hle & Hw)].
  - rewrite Hno. cbn [negb]. eexists _, _. split; [reflexivity|].
    left. split; [reflexivity | exact Hw].
  - rewrite Hyes. cbn [negb].
    destruct (fetchWithCookies _ _ w2) as [[resp| |] w3] eqn:F;
      destruct (fetch_limiter_frame _ _ _ _ _ F) as (H3 & _ & _).
    + destruct (negb (status resp =? 200) && negb (status resp =? 400)).
      * eexists _, _. split; [reflexivity|]. right.
        split; [reflexivity|]. split; [exact Hle|]. rewrite H3. exact Hw.
      * eexists _, _. split; [reflexivity|]. right.
        split; [reflexivity|]. split; [exact Hle|].
        rewrite (proj1 (set_limiter_frame _ _ _ _)), H3. exact Hw.
    + eexists _, _. split; [reflexivity|]. right.
      split; [reflexivity|]. split; [exact Hle|]. rewrite H3. exact Hw.
    + eexists _, _. split; [reflexivity|]. right.
      split; [reflexivity|]. split; [exact Hle|]. rewrite H3. exact Hw.
Qed.

Lemma permits_bound (arrivals : list Arrival) (w : World) (ip : string) (k : Z) :
  counters_bounded (windows w) ->
  permits (in_aligned k) ip arrivals (checks arrivals w)
  + Ratelimit.counter (Ratelimit.getKey "check_username", k) (windows w)
  <= Ratelimit.tokens.
Proof.
  revert w. induction arrivals as [|a rest IH]; intros w Hb.
  - cbn. apply Hb.
  - cbn [checks].
    destruct (checkUsername_permit (conditions a) (asks a) (caller a)
                (with_clock (arrives a) w) Hb) as (c & w' & E & Hcase).
    rewrite E. cbn [permits].
    assert (Hb' : counters_bounded (windows w')).
    { destruct Hcase as [[_ Hw] | (_ & Hle & Hw)]; rewrite Hw; [exact Hb|].
      intros key. rewrite counter_insert. destruct (decide _); [|apply Hb].
      pose proof (Hb (countedUnder (conditions a) (with_clock (arrives a) w))).
      cbn [windows with_clock] in *. lia. }
    specialize (IH w' Hb').
    destruct Hcase as [[Hno Hw] | (Hyes & Hle & Hw)].
    + rewrite Hno. cbn [andb]. rewrite Hw in IH. cbn [windows with_clock] in IH. lia.
    + rewrite Hyes. cbn [andb]. rewrite Hw, counter_insert in IH.
      unfold countedUnder in IH, Hle. cbn [windows with_clock clock] in IH, Hle.
      destruct (in_aligned k (arrives a + Z.of_N (get_lat (conditions a)))) eqn:Hk;
        unfold in_aligned in Hk.
      * apply Z.eqb_eq in Hk. rewrite Hk in IH, Hle.
        destruct (decide _) as [_|Hne]; [|congruence].
        destruct (String.eqb (caller a) ip); cbn [andb]; lia.
      * apply Z.eqb_neq in Hk. destruct (decide _) as [Heq|_]; [congruence|].
        rewrite andb_false_r. lia.
Qed.

(** C4, as amended: for every caller identity, the count of permits
    granted to that identity within any clock-aligned 60-second window
    never exceeds 30, whatever checks arrive, from whom and when, after
    the process has started. *)
Theorem checks_per_window (arrivals : list Arrival) (t : Z) (ip : string) (k : Z) :
  permits (in_aligned k) ip arrivals (checks arrivals (fresh t)) <= 30.
Proof.
  pose proof (permits_bound arrivals (fresh t) ip k counters_bounded_empty) as H.
  pose proof (counters_bounded_empty (Ratelimit.getKey "check_username", k)) as H0.
  cbn [windows fresh] in H. unfold Ratelimit.tokens in *. lia.
Qed.

(** C4, as the specification words it, fails: one caller's 30 checks in
    the last millisecond of a clock-aligned window and 30 more 59 seconds
    into the next are all granted a permit, 60 within 59.001 seconds. *)
Lemma rolling_permits_counterexample :
  ~ Claimed.rolling_permits_bound two_bursts_of_checks (fresh t0).
Proof.
  intros H. specialize (H "203.0.113.7" (t0 + 39999)).
  apply Z.leb_le in H. vm_compute in H. discriminate H.
Qed.
